(** * VCF anonymization and its verifier: a shallow embedding

    The development follows the two Python programs of the repository:

    - [vcf_anonymizer.py]: the MAF estimator, the STR pattern engine
      ([build_str_patterns], [mask_str]), [anonymize_vcf_file] (header
      loop, new header, record loop) and the output names of [main];
    - [vcf_anonymization_verifier.py]: its own MAF estimator,
      [collect_targets], [verify_pair] and the file matching of [run].

    Modelling decisions.
    - An INFO map is a [gmap string value]; a value is what pysam hands
      out: a scalar ([None], a flag, an int, a float, a str) or a tuple of
      scalars.
    - Python floats are modelled by exact rationals [Q]: the properties
      below depend on comparisons and on which values convert, not on
      rounding.  Non-finite floats are outside the model.
    - [float(s)] on a [str] is Python's own parser; it is a parameter
      ([FloatOfStr]) of every definition that converts values.
    - A Python exception is an explicit [Raise] in the [result] monad.
    - pysam's output side ([add_line], [write]) is a parameter ([Output])
      that may raise; a file is its header lines and its records.
    - Allele sequences are [list ascii]; [re.search] and [re.sub] are
      modelled for the two pattern families the programs compile,
      [([ACGT]{k})\1{n-1,}] and [(motif){n,}] with a literal motif. *)

From Stdlib Require Import QArith Ascii Lqa.
From stdpp Require Import gmap strings list fin_maps sorting pretty.

Local Open Scope Z_scope.

(* ===================================================================== *)
(** * Python values and exceptions                                         *)
(* ===================================================================== *)

Module Py.

Inductive exn := IndexError | TypeError | ValueError | OSError.

Inductive result (A : Type) : Type :=
| Ok (a : A)
| Raise (e : exn).
Global Arguments Ok {A} a.
Global Arguments Raise {A} e.

Global Instance result_ret : MRet result := λ A a, Ok a.
Global Instance result_bind : MBind result := λ A B f m,
  match m with
  | Ok a => f a
  | Raise e => Raise e
  end.

Inductive scalar :=
| SNone
| SBool (b : bool)
| SInt (z : Z)
| SFloat (q : Q)
| SStr (s : string).

(** [VSeq] stands for a tuple or a list: the programs only test
    [isinstance(v, (tuple, list))]. *)
Inductive value :=
| VScalar (x : scalar)
| VSeq (xs : list scalar).

Coercion VScalar : scalar >-> value.

(** [float(s)] for a [str]. *)
Class FloatOfStr := float_of_str : string → option Q.

(** An instance for plain decimal literals, [[+-]digits[.digits]] with at
    least one digit, on which it agrees with [float]; the worked examples
    below are evaluated with it. *)
Fixpoint digits (acc : N) (s : string) : option N :=
  match s with
  | EmptyString => Some acc
  | String c s => d ← Ascii.is_nat c; digits (10 * acc + N.of_nat d)%N s
  end.

Fixpoint split_dot (s : string) : string * option string :=
  match s with
  | EmptyString => (EmptyString, None)
  | String c r =>
      if Ascii.eqb c "." then (EmptyString, Some r)
      else let '(a, b) := split_dot r in (String c a, b)
  end.

Definition plain_decimal : FloatOfStr := λ s,
  let '(neg, body) :=
    match s with
    | String c r =>
        if Ascii.eqb c "-" then (true, r)
        else if Ascii.eqb c "+" then (false, r)
        else (false, s)
    | EmptyString => (false, s)
    end in
  let '(ip, fp) := split_dot body in
  let fp := default EmptyString fp in
  if (String.length ip + String.length fp =? 0)%nat then None
  else
    i ← digits 0 ip;
    f ← digits 0 fp;
    let den := (10 ^ N.of_nat (String.length fp))%N in
    let q := Qmake (Z.of_N (i * den + f)) (Z.to_pos (Z.of_N den)) in
    Some (if neg : bool then Qopp q else q).

Definition is_None (v : value) : bool :=
  match v with VScalar SNone => true | _ => false end.

(** [list(vals) if isinstance(vals, (tuple, list)) else [vals]] *)
Definition as_list (vals : value) : list scalar :=
  match vals with
  | VSeq xs => xs
  | VScalar x => [x]
  end.

(** [x < y] on floats. *)
Definition Qltb (x y : Q) : bool := negb (Qle_bool y x).

(** [max(a, b)]: [b] wins only when [b > a]. *)
Definition py_max (a b : Q) : Q := if Qltb a b then b else a.

(** [sum(l)] for floats: a left fold from [0]. *)
Definition py_sum (l : list Q) : Q := fold_left Qplus l 0%Q.

(** [min([x] + l)] for floats: a later item wins only when it is
    strictly smaller. *)
Definition py_min (x : Q) (l : list Q) : Q :=
  fold_left (λ m y, if Qltb y m then y else m) l x.

(** The same two built-ins on a list that may still hold [None]:
    [0 + None], [x + None] and [None < x] raise [TypeError]. *)
Fixpoint py_sum_dyn (acc : Q) (l : list (option Q)) : result Q :=
  match l with
  | [] => Ok acc
  | Some x :: l => py_sum_dyn (acc + x)%Q l
  | None :: _ => Raise TypeError
  end.

Fixpoint py_min_dyn (m : Q) (l : list (option Q)) : result Q :=
  match l with
  | [] => Ok m
  | Some y :: l => py_min_dyn (if Qltb y m then y else m) l
  | None :: _ => Raise TypeError
  end.

Section Conversion.
Context `{FloatOfStr}.

(** [float(x)]: [None] and sequences raise [TypeError], a [str] goes
    through the parser, numbers and flags convert. *)
Definition float (v : value) : result Q :=
  match v with
  | VScalar SNone => Raise TypeError
  | VScalar (SBool b) => Ok (if b then 1 else 0)%Q
  | VScalar (SInt z) => Ok (inject_Z z)
  | VScalar (SFloat q) => Ok q
  | VScalar (SStr s) =>
      match float_of_str s with
      | Some q => Ok q
      | None => Raise ValueError
      end
  | VSeq _ => Raise TypeError
  end.
End Conversion.

End Py.
Export Py.

(* ===================================================================== *)
(** * The two regular-expression families                                  *)
(* ===================================================================== *)

Abbreviation str := String.list_ascii_of_string.

Module Re.

Definition is_ACGT (c : ascii) : bool :=
  match c with
  | "A" | "C" | "G" | "T" => true
  | _ => false
  end%char.

Fixpoint starts_with (p s : list ascii) : bool :=
  match p, s with
  | [], _ => true
  | a :: p, b :: s => Ascii.eqb a b && starts_with p s
  | _ :: _, [] => false
  end.

(** Number of back-to-back copies of a non-empty [motif] at the head of
    [s]: what a greedy [{n,}] loop over a literal consumes. *)
Fixpoint copies_upto (fuel : nat) (motif s : list ascii) : nat :=
  match fuel with
  | O => O
  | S fuel =>
      if starts_with motif s
      then S (copies_upto fuel motif (drop (length motif) s))
      else O
  end.

Definition copies (motif s : list ascii) : nat :=
  copies_upto (length s) motif s.

(** [motif * c] *)
Fixpoint rep (motif : list ascii) (c : nat) : list ascii :=
  match c with
  | O => []
  | S c => motif ++ rep motif c
  end.

(** A compiled [rf"([ACGT]{{{k}}})\1{{{min_repeat - 1},}}"]. *)
Record pattern := Pattern { pat_k : nat; pat_min_repeat : nat }.

(** The pattern anchored at the head of [s]; the result is [group(1)].
    With [min_repeat = 0] the f-string yields [{-1,}], which [re] reads
    as literal text after a single back-reference.  With [k = 0] the
    group and every back-reference are empty. *)
Definition match_here (p : pattern) (s : list ascii) : option (list ascii) :=
  let k := pat_k p in
  let u := take k s in
  if bool_decide (length u = k) && forallb is_ACGT u then
    match pat_min_repeat p with
    | O => if starts_with (u ++ str "{-1,}") (drop k s) then Some u else None
    | S n =>
        match u with
        | [] => Some u
        | _ => if (n <=? copies u (drop k s))%nat then Some u else None
        end
    end
  else None.

(** [p.search(s)]: leftmost match; the result is [m.group(1)]. *)
Fixpoint search (p : pattern) (s : list ascii) : option (list ascii) :=
  match match_here p s with
  | Some u => Some u
  | None =>
      match s with
      | [] => None
      | _ :: s => search p s
      end
  end.

(** [re.sub(rf"({motif}){{{n},}}", repl, s)] for a non-empty literal
    [motif] (the callers pass [m.group(1)], a word over [ACGT], so it holds
    no metacharacter): scan from the left; where at least [n] copies (and at least
    one) start, hand the whole greedy run to [repl] and resume behind it;
    elsewhere copy one character.  Empty matches (only for [n = 0]) are
    replaced by [repl] of the empty string, which is empty for both
    replacement functions of [mask_str], and are not represented. *)
Fixpoint sub_upto (fuel : nat) (motif : list ascii) (n : nat)
    (repl : list ascii → result (list ascii)) (s : list ascii)
  : result (list ascii) :=
  match fuel with
  | O => Ok s
  | S fuel =>
      match s with
      | [] => Ok []
      | ch :: rest =>
          let c := copies motif s in
          if (n <=? c)%nat && (0 <? c)%nat then
            let len := (c * length motif)%nat in
            r ← repl (take len s);
            out ← sub_upto fuel motif n repl (drop len s);
            Ok (r ++ out)
          else
            out ← sub_upto fuel motif n repl rest;
            Ok (ch :: out)
      end
  end.

Definition sub (motif : list ascii) (n : nat)
    (repl : list ascii → result (list ascii)) (s : list ascii)
  : result (list ascii) :=
  sub_upto (length s) motif n repl s.

(** The span [(start, end)] of the first match of [(motif){n,}] with a
    non-empty run, as [re.search] reports it. *)
Fixpoint first_run (motif : list ascii) (n : nat) (s : list ascii)
  : option (nat * nat) :=
  match s with
  | [] => None
  | _ :: rest =>
      let c := copies motif s in
      if (n <=? c)%nat && (0 <? c)%nat then Some (O, (c * length motif)%nat)
      else (λ '(a, b), (S a, S b)) <$> first_run motif n rest
  end.

(** The spans of all the matches of [(motif){n,}] with a non-empty run, in
    the order in which [re.sub] (called without [count]) and [re.finditer]
    meet them: the leftmost match, taken greedily, then the matches of the
    text behind it. *)
Fixpoint runs_upto (fuel : nat) (motif : list ascii) (n : nat)
    (s : list ascii) : list (nat * nat) :=
  match fuel with
  | O => []
  | S fuel =>
      match s with
      | [] => []
      | _ :: rest =>
          let c := copies motif s in
          if (n <=? c)%nat && (0 <? c)%nat then
            let len := (c * length motif)%nat in
            (O, len)
              :: ((λ '(a, b), (len + a, len + b)%nat)
                    <$> runs_upto fuel motif n (drop len s))
          else (λ '(a, b), (S a, S b)) <$> runs_upto fuel motif n rest
      end
  end.

Definition runs (motif : list ascii) (n : nat) (s : list ascii)
  : list (nat * nat) :=
  runs_upto (length s) motif n s.

(** ** Vocabulary of the properties *)

(** Position [i] of [s] lies inside a qualifying run: at least [n] (and
    at least one) back-to-back copies of [motif] starting at some [a]. *)
Definition in_run (motif : list ascii) (n : nat) (s : list ascii) (i : nat)
  : Prop :=
  ∃ a c : nat,
    (n ≤ c)%nat ∧ (0 < c)%nat
    ∧ take (c * length motif) (drop a s) = rep motif c
    ∧ (a ≤ i < a + c * length motif)%nat.

(** [out] differs from [s] at most inside the first match. *)
Definition only_first_run_altered (motif : list ascii) (n : nat)
    (s out : list ascii) : Prop :=
  ∀ i : nat,
    match first_run motif n s with
    | Some (a, b) => ¬ (a ≤ i < b)%nat
    | None => True
    end →
    out !! i = s !! i.

End Re.

(* ===================================================================== *)
(** * Variant records as pysam exposes them                                *)
(* ===================================================================== *)

Module Vcf.

(** [rec.alts] is [None] when the ALT column is empty, else a tuple of
    allele strings; [rec.info] is the INFO map. *)
Record record := Record {
  chrom : string;
  pos : Z;
  alts : option (list (list ascii));
  info : gmap string value;
}.

Definition set_alts (rec : record) (new : option (list (list ascii)))
  : record :=
  {| chrom := chrom rec; pos := pos rec; alts := new; info := info rec |}.

(** Truth value of [rec.alts]. *)
Definition truthy (a : option (list (list ascii))) : bool :=
  match a with
  | Some (_ :: _) => true
  | _ => false
  end.

(** [tuple(rec.alts) if rec.alts else ()] *)
Definition alt_tuple (a : option (list (list ascii))) : list (list ascii) :=
  if truthy a then default [] a else [].

(** [a == "."] *)
Definition is_dot (a : list ascii) : bool := bool_decide (a = str ".").

Inductive level := Low | High.

End Vcf.
Export Vcf.

(* ===================================================================== *)
(** * vcf_anonymizer.py: common utilities                                  *)
(* ===================================================================== *)

Module Anonymizer.
Section Estimator.
Context `{FloatOfStr}.

Definition _to_float (x : value) : option Q :=
  match float x with
  | Ok q => Some q
  | Raise _ => None
  end.

(** Tier 3 of [site_maf_from_info] (the [AC]/[AN] block and the final
    [return None]). *)
Definition maf_from_ac_an (info : gmap string value) : result (option Q) :=
  match info !! "AC", info !! "AN" with
  | Some vals, Some an_raw =>
      match _to_float an_raw with
      | None => Ok None
      | Some an =>
          if Qeq_bool an 0 || Qle_bool an 0 then Ok None
          else
            let acs := as_list vals in
            let afs :=
              omap (λ a, (λ fa, fa / an)%Q <$> _to_float (VScalar a)) acs in
            match afs with
            | [] => Ok None
            | _ =>
                let ref := py_max 0 (1 - py_sum afs)%Q in
                Ok (Some (py_min ref afs))
            end
      end
  | _, _ => Ok None
  end.

Definition site_maf_from_info (info : gmap string value)
  : result (option Q) :=
  match info !! "MAF" with
  | Some v =>
      v ← match v with
          | VSeq [] => Raise IndexError
          | VSeq (x :: _) => Ok (VScalar x)
          | VScalar _ => Ok v
          end;
      Ok (_to_float v)
  | None =>
      match info !! "AF" with
      | Some vals =>
          let afs := as_list vals in
          let afs :=
            (λ x, _to_float (VScalar x)) <$>
              filter (λ x, is_None (VScalar x) = false) afs in
          match afs with
          | [] => maf_from_ac_an info
          | _ =>
              s ← py_sum_dyn 0 afs;
              let ref := py_max 0 (1 - s)%Q in
              m ← py_min_dyn ref afs;
              Ok (Some m)
          end
      | None => maf_from_ac_an info
      end
  end.
End Estimator.

(** ** STR pattern engine *)

Definition build_str_patterns (min_motif max_motif min_repeat : nat)
  : list Re.pattern :=
  (λ k, Re.Pattern k min_repeat) <$> seq min_motif (max_motif + 1 - min_motif).

(** [segment[i : i + motif_len] for i in range(0, len(segment), motif_len)]
    for [motif_len >= 1]. *)
Fixpoint chunks_upto (fuel motif_len : nat) (segment : list ascii)
  : list (list ascii) :=
  match fuel with
  | O => []
  | S fuel =>
      match segment with
      | [] => []
      | _ => take motif_len segment
               :: chunks_upto fuel motif_len (drop motif_len segment)
      end
  end.

Definition chunks (motif_len : nat) (segment : list ascii)
  : list (list ascii) :=
  chunks_upto (length segment) motif_len segment.

(** The body of the loop of [repl]: what is appended for one chunk. *)
Definition masked_chunk (motif chunk : list ascii) : list ascii :=
  if bool_decide (chunk = motif)
  then take 1 chunk ++ replicate (length motif - 1) "N"%char
  else chunk.

(** The inner [repl] of [mask_str]; [range(0, len(segment), 0)] raises
    [ValueError]. *)
Definition repl (motif : list ascii) (segment : list ascii)
  : result (list ascii) :=
  let motif_len := length motif in
  if (motif_len =? 0)%nat then Raise ValueError
  else Ok (mjoin (masked_chunk motif <$> chunks motif_len segment)).

Definition mask_str (seq motif : list ascii) (min_repeat : nat)
  : result (list ascii) :=
  let motif_len := length motif in
  if (motif_len =? 1)%nat then
    Re.sub motif min_repeat
      (λ m, Ok (replicate (length m) "N"%char)) seq
  else
    match motif with
    | [] =>
        (* [(){n,}] first matches the empty string at position 0 *)
        _ ← repl motif []; Ok seq
    | _ => Re.sub motif min_repeat (repl motif) seq
    end.

(** ** Per-record processing of [anonymize_vcf_file] *)

(** The [for p in patterns] loop up to its [break]: the motif of the
    first pattern that matches. *)
Fixpoint detect (patterns : list Re.pattern) (alt_seq : list ascii)
  : option (list ascii) :=
  match patterns with
  | [] => None
  | p :: patterns =>
      match Re.search p alt_seq with
      | Some motif => Some motif
      | None => detect patterns alt_seq
      end
  end.

(** One iteration of [for alt_seq in rec.alts]: the masked allele and
    whether it set [str_modified]. *)
Definition mask_alt (patterns : list Re.pattern) (min_repeat : nat)
    (alt_seq : list ascii) : result (list ascii * bool) :=
  match detect patterns alt_seq with
  | Some motif =>
      masked ← mask_str alt_seq motif min_repeat;
      Ok (masked, bool_decide (masked ≠ alt_seq))
  | None => Ok (alt_seq, false)
  end.

Fixpoint mask_alts (patterns : list Re.pattern) (min_repeat : nat)
    (alts : list (list ascii)) : result (list (list ascii) * bool) :=
  match alts with
  | [] => Ok ([], false)
  | alt_seq :: alts =>
      '(masked, b) ← mask_alt patterns min_repeat alt_seq;
      '(new_alts, str_modified) ← mask_alts patterns min_repeat alts;
      Ok (masked :: new_alts, b || str_modified)
  end.

(** Step 3-1: [if rec.alts: ... rec.alts = tuple(new_alts)]. *)
Definition mask_record (patterns : list Re.pattern) (min_repeat : nat)
    (rec : record) : result (record * bool) :=
  if truthy (alts rec) then
    '(new_alts, str_modified) ←
      mask_alts patterns min_repeat (default [] (alts rec));
    Ok (set_alts rec (Some new_alts), str_modified)
  else Ok (rec, false).

Section Records.
Context `{FloatOfStr}.

(** The body of [for rec in vcf_in.fetch()]; the result is the record
    handed to [vcf_out.write]. *)
Definition anonymize_record (level : level) (maf_threshold : Q)
    (min_motif max_motif min_repeat : nat) (rec : record)
  : result record :=
  if truthy (alts rec) && forallb is_dot (default [] (alts rec)) then Ok rec
  else
    match level with
    | Low => Ok rec
    | High =>
        let patterns := build_str_patterns min_motif max_motif min_repeat in
        '(rec, str_modified) ← mask_record patterns min_repeat rec;
        if (str_modified : bool) then Ok rec
        else
          maf ← site_maf_from_info (info rec);
          match maf with
          | Some maf =>
              if Qltb maf maf_threshold
              then Ok (set_alts rec (Some [str "."]))
              else Ok rec
          | None => Ok rec
          end
    end.
End Records.
End Anonymizer.

(* ===================================================================== *)
(** * vcf_anonymization_verifier.py: common utilities                      *)
(* ===================================================================== *)

Module Verifier.
Section Estimator.
Context `{FloatOfStr}.

Definition _to_float (x : value) : option Q :=
  match float x with
  | Ok q => Some q
  | Raise _ => None
  end.

(** [key in info and info[key] is not None] *)
Definition present (info : gmap string value) (key : string)
  : option value :=
  match info !! key with
  | Some v => if is_None v then None else Some v
  | None => None
  end.

(** [[_to_float(a) for a in l if a is not None]] followed by
    [[a for a in l if a is not None]]. *)
Definition parsed (l : list scalar) : list Q :=
  let l := (λ a, _to_float (VScalar a)) <$>
             filter (λ a, is_None (VScalar a) = false) l in
  omap id l.

(** Tier 3 and the final [return None]. *)
Definition maf_from_ac_an (info : gmap string value) : option Q :=
  match present info "AC", present info "AN" with
  | Some vals, Some an_raw =>
      match _to_float an_raw with
      | None => None
      | Some an =>
          if Qeq_bool an 0 || Qle_bool an 0 then None
          else
            let acs := parsed (as_list vals) in
            match acs with
            | [] => None
            | _ =>
                let afs := (λ a, a / an)%Q <$> acs in
                let s := py_sum afs in
                let ref := py_max 0 (1 - s)%Q in
                Some (py_min ref afs)
            end
      end
  | _, _ => None
  end.

Definition site_maf_from_info (info : gmap string value) : option Q :=
  match present info "MAF" with
  | Some v =>
      let v := match v with
               | VSeq [] => VScalar SNone
               | VSeq (x :: _) => VScalar x
               | VScalar _ => v
               end in
      _to_float v
  | None =>
      match present info "AF" with
      | Some vals =>
          let afs := parsed (as_list vals) in
          match afs with
          | [] => maf_from_ac_an info
          | _ =>
              let s := py_sum afs in
              let ref := py_max 0 (1 - s)%Q in
              Some (py_min ref afs)
          end
      | None => maf_from_ac_an info
      end
  end.
End Estimator.
Definition build_str_patterns (min_motif max_motif min_repeat : nat)
  : list Re.pattern :=
  (λ k, Re.Pattern k min_repeat) <$> seq min_motif (max_motif + 1 - min_motif).

(** ** Header helpers *)

(** [c.isspace()] for a code point below 256. *)
Definition is_space (c : ascii) : bool :=
  let n := nat_of_ascii c in
  ((9 <=? n) && (n <=? 13) || (28 <=? n) && (n <=? 32)
   || (n =? 133) || (n =? 160))%nat.

Fixpoint lstrip (s : string) : string :=
  match s with
  | String c s' => if is_space c then lstrip s' else s
  | EmptyString => EmptyString
  end.

(** [l.strip()] *)
Definition strip (s : string) : string :=
  String.rev (lstrip (String.rev (lstrip s))).

(** [l.startswith(p)] *)
Definition startswith (l p : string) : bool := String.prefix p l.

(** ["/" not in l] *)
Fixpoint no_slash (l : string) : bool :=
  match l with
  | String c l => negb (Ascii.eqb c "/") && no_slash l
  | EmptyString => true
  end.

(** [parse_header], on the lines of [str(vcf.header)]. *)
Definition parse_header (lines : list string) : list string :=
  strip <$> lines.

Definition infer_level (fname : string) : level :=
  if startswith fname "high_" || startswith fname "strong_" then High
  else if startswith fname "low_" || startswith fname "weak_" then Low
  else Low.

(** ** Targets and verification state *)

Inductive kind := STR | MAF.

Global Instance kind_eq_dec : EqDecision kind.
Proof. solve_decision. Defined.

Record target := Target { t_kind : kind; alt_orig : list (list ascii) }.

Record vstate := VState {
  var_m_sites : gset (string * Z);
  error_sites : gset (string * Z);
}.

Record report := Report {
  filename : string;
  anonymization_level : level;
  verification_result : string;
  total_targets : nat;
  metadata_targets : nat;
  variant_targets : nat;
  metadata_masked : nat;
  variant_masked : nat;
  unmasked_positions : string;
}.

(** [sorted(f"{c}:{p}" for (c, p) in error_sites)] *)
Definition site_string (k : string * Z) : string :=
  k.1 +:+ ":" +:+ pretty k.2.

Definition sorted_sites (sites : gset (string * Z)) : list string :=
  merge_sort String.le (site_string <$> elements sites).

Section Pairs.
Context `{FloatOfStr}.

(** The STR scan of [collect_targets] over the alternates of one
    record. *)
Definition is_str (patterns : list Re.pattern) (alts : list (list ascii))
  : bool :=
  match patterns with
  | [] => false
  | _ =>
      existsb (λ alt,
                 if is_dot alt then false
                 else existsb (λ p, bool_decide (is_Some (Re.search p alt)))
                        patterns) alts
  end.

(** One iteration of the loop of [collect_targets]. *)
Definition collect_step (maf_threshold : Q) (patterns : list Re.pattern)
    (targets : gmap (string * Z) target) (rec : record)
  : gmap (string * Z) target :=
  let rec_alts := default [] (alts rec) in
  if negb (truthy (alts rec)) || forallb is_dot rec_alts then targets
  else
    let is_str := is_str patterns rec_alts in
    let maf := site_maf_from_info (info rec) in
    let maf_target :=
      match maf with
      | Some maf =>
          Qltb maf maf_threshold
          && bool_decide (is_Some (alts rec))
          && existsb (λ a, negb (is_dot a)) rec_alts
      | None => false
      end in
    if negb is_str && negb maf_target then targets
    else
      let kind := if is_str then STR else MAF in
      let key := (chrom rec, pos rec) in
      let alt_tuple := alt_tuple (alts rec) in
      <[ key := Target kind alt_tuple ]> targets.

Definition collect_targets (origin : list record) (maf_threshold : Q)
    (patterns : list Re.pattern) : gmap (string * Z) target :=
  fold_left (collect_step maf_threshold patterns) origin ∅.

(** The value of [success] at the [if success:] test of [verify_pair],
    for a record whose site has target [t] and is not yet in
    [var_m_sites]. *)
Definition judge (maf_threshold : Q) (t : target) (rec : record) : bool :=
  let alt_mask := alt_tuple (alts rec) in
  match t_kind t with
  | MAF =>
      match site_maf_from_info (info rec) with
      | None => true
      | Some maf_masked =>
          if Qltb maf_masked maf_threshold then
            bool_decide (alt_mask ∈ [ []; [str "."] ])
            || forallb is_dot alt_mask
          else true
      end
  | STR =>
      bool_decide (alt_mask ≠ alt_orig t)
      && existsb (λ a, bool_decide ("N"%char ∈ a)) alt_mask
  end.

(** One iteration of [for rec in vcf_mask.fetch()]. *)
Definition verify_step (maf_threshold : Q)
    (targets : gmap (string * Z) target) (st : vstate) (rec : record)
  : vstate :=
  let key := (chrom rec, pos rec) in
  match targets !! key with
  | None => st
  | Some t =>
      if bool_decide (key ∈ var_m_sites st) then st
      else if judge maf_threshold t rec then
        VState ({[ key ]} ∪ var_m_sites st)
               (if bool_decide (key ∈ error_sites st)
                then error_sites st ∖ {[ key ]}
                else error_sites st)
      else
        VState (var_m_sites st)
               (if bool_decide (key ∉ var_m_sites st)
                then {[ key ]} ∪ error_sites st
                else error_sites st)
  end.

Definition verify_loop (maf_threshold : Q)
    (targets : gmap (string * Z) target) (st : vstate)
    (anony : list record) : vstate :=
  fold_left (verify_step maf_threshold targets) anony st.

(** [verify_pair]: the two files are their header lines and records;
    [fname] is the base name of the anonymized file.  The report's
    [anonymization_rate] string (a formatted float) is left out. *)
Definition verify_pair (fname : string)
    (origin anony : list record) (anony_lines : list string)
    (maf_threshold : Q) (origin_header : list string)
    (patterns : list Re.pattern) : report :=
  let level := infer_level fname in
  let anon_header := parse_header anony_lines in
  let cmdline := existsb (λ l, startswith l "##cmdline=") origin_header in
  let cmdline_m :=
    cmdline
    && existsb (λ l, bool_decide (strip l = "##cmdline=.")) anon_header in
  let reference :=
    existsb (λ l, startswith l "##reference=") origin_header in
  let reference_m :=
    reference
    && existsb (λ l, startswith l "##reference=" && no_slash l)
         anon_header in
  let meta_t := (Nat.b2n cmdline + Nat.b2n reference)%nat in
  let meta_m := (Nat.b2n cmdline_m + Nat.b2n reference_m)%nat in
  let targets :=
    match level with
    | High => collect_targets origin maf_threshold patterns
    | Low => ∅
    end in
  let var_t := size targets in
  let st :=
    match level with
    | High => verify_loop maf_threshold targets (VState ∅ ∅) anony
    | Low => VState ∅ ∅
    end in
  let var_m := size (var_m_sites st) in
  let total_targets := (meta_t + var_t)%nat in
  let masked_total := (meta_m + var_m)%nat in
  let status := if (masked_total =? total_targets)%nat then "ok" else "fail" in
  let errors_str :=
    if negb (String.eqb status "ok")
       && negb (bool_decide (error_sites st = ∅))
    then String.concat ";" (sorted_sites (error_sites st))
    else "-" in
  Report fname level status total_targets meta_t var_t meta_m var_m
         errors_str.
End Pairs.

(** ** The report field as the specification words it *)

(** "The semicolon-joined, lexicographically sorted list of
    [chromosome:position] of every target site that was not reconciled
    successfully, or a placeholder when there are none." *)
Definition spec_unmasked_positions {A} (targets : gmap (string * Z) A)
    (st : vstate) : string :=
  let unmasked := dom targets ∖ var_m_sites st in
  if bool_decide (unmasked = ∅) then "-"
  else String.concat ";" (sorted_sites unmasked).

End Verifier.

(* ===================================================================== *)
(** * File-level drivers of the two programs                               *)
(* ===================================================================== *)

Module Files.

(** ** [anonymize_vcf_file]: the header loop *)

(** [line.split("=", 1)[1]]: the text after the first ["="];
    [IndexError] when there is none. *)
Fixpoint after_eq (line : string) : result string :=
  match line with
  | EmptyString => Raise IndexError
  | String c line => if Ascii.eqb c "=" then Ok line else after_eq line
  end.

(** [s.replace("file://", "")]: occurrences are removed from the left and
    do not overlap; [skip] counts the characters of the current occurrence
    that are still to be dropped. *)
Fixpoint remove_file_scheme_from (skip : nat) (s : string) : string :=
  match s with
  | EmptyString => EmptyString
  | String c s' =>
      match skip with
      | S skip => remove_file_scheme_from skip s'
      | O =>
          if String.prefix "file://" s then remove_file_scheme_from 6 s'
          else String c (remove_file_scheme_from 0 s')
      end
  end.

Definition remove_file_scheme (s : string) : string :=
  remove_file_scheme_from 0 s.

(** [os.path.basename(p)] (POSIX): the text after the last ["/"]. *)
Fixpoint basename (p : string) : string :=
  match p with
  | EmptyString => EmptyString
  | String _ p' => if Verifier.no_slash p then p else basename p'
  end.

(** The body of [for line in str(vcf_in.header).splitlines()]. *)
Definition anonymize_header_line (line : string) : result string :=
  if Verifier.startswith line "##cmdline=" then Ok "##cmdline=."
  else if Verifier.startswith line "##reference=" then
    value ← after_eq line;
    let ref_value := Verifier.strip value in
    let ref_filename := basename (remove_file_scheme ref_value) in
    Ok ("##reference=" +:+ ref_filename)
  else Ok line.

(** A loop that builds a list and stops at the first exception. *)
Fixpoint map_result {A B} (f : A → result B) (l : list A) : result (list B) :=
  match l with
  | [] => Ok []
  | x :: l => y ← f x; ys ← map_result f l; Ok (y :: ys)
  end.

(** ** pysam's output side *)

(** The two calls that put text into the new file.  [add_line so_far l] is
    [new_header.add_line(l)] on a header that already holds the lines
    [so_far]; [write header_in added rec] is [vcf_out.write(rec)] for a
    record read under the header [header_in], on a file opened with the
    header built from the lines [added].  pysam raises when a line or a
    record does not fit the header it is given, so both are parameters that
    may raise.  Opening the two files and copying the sample names are not
    represented. *)
Class Output := {
  add_line : list string → string → result unit;
  write : list string → list string → record → result unit;
}.

(** An output side for the worked examples: it takes every header line and
    refuses a record that carries a symbolic allele ([<DEL>] and the
    like). *)
Definition is_symbolic (a : list ascii) : bool :=
  match a with
  | "<"%char :: _ => true
  | _ => false
  end.

Definition plain_output : Output := {|
  add_line _ _ := Ok tt;
  write _ _ rec :=
    if existsb is_symbolic (alt_tuple (alts rec)) then Raise OSError
    else Ok tt;
|}.

Section File.
Context `{FloatOfStr} `{Output}.

(** [for l in header_lines: if not l.startswith("#CHROM"):
    new_header.add_line(l)]; the result lists the lines of the new
    header. *)
Fixpoint add_lines (so_far lines : list string) : result (list string) :=
  match lines with
  | [] => Ok so_far
  | l :: lines =>
      if Verifier.startswith l "#CHROM" then add_lines so_far lines
      else _ ← add_line so_far l; add_lines (so_far ++ [l]) lines
  end.

(** Step 1 of [anonymize_vcf_file]: the header loop, then the new
    header. *)
Definition new_header (header : list string) : result (list string) :=
  header_lines ← map_result anonymize_header_line header;
  add_lines [] header_lines.

(** [anonymize_vcf_file] on the header lines and the records of the input
    file.  The result is what reached the output file: the lines of the new
    header (all but [#CHROM]) and the records that [vcf_out.write] took, in
    order.  An exception of the record transformation or of pysam ends the
    run. *)
Definition anonymize_vcf_file (header : list string) (records : list record)
    (level : level) (maf_threshold : Q)
    (min_motif max_motif min_repeat : nat)
  : result (list string * list record) :=
  added ← new_header header;
  written ←
    map_result
      (λ rec,
         rec ← Anonymizer.anonymize_record level maf_threshold min_motif
                 max_motif min_repeat rec;
         _ ← write header added rec;
         Ok rec) records;
  Ok (added, written).
End File.

(** ** [main] of the anonymizer: which files, under which name *)

(** [s.endswith(suf)] *)
Fixpoint endswith (s suf : string) : bool :=
  String.eqb s suf
  || match s with
     | EmptyString => false
     | String _ s' => endswith s' suf
     end.

(** [fname.endswith((".vcf.gz", ".vcf.bgz"))] *)
Definition is_vcf_name (fname : string) : bool :=
  endswith fname ".vcf.gz" || endswith fname ".vcf.bgz".

(** [f"{prefix}{fname}"]; [maf_text] is [f"{args.maf}"]. *)
Definition output_name (level : level) (maf_text fname : string) : string :=
  match level with
  | High => "high_" +:+ maf_text +:+ "_anony_" +:+ fname
  | Low => "low_anony_" +:+ fname
  end.

(** ** [run] of the verifier: which anonymized files belong to an origin *)

Fixpoint sdrop (n : nat) (s : string) : string :=
  match n, s with
  | S n, String _ s => sdrop n s
  | _, _ => s
  end.

(** The text after the first occurrence of [sep], if there is one. *)
Fixpoint after_first (sep s : string) : option string :=
  if String.prefix sep s then Some (sdrop (String.length sep) s)
  else match s with
       | EmptyString => None
       | String _ s' => after_first sep s'
       end.

(** [f.split("anony_", 1)[-1]] *)
Definition after_anony (f : string) : string :=
  default f (after_first "anony_" f).

(** The filter of [matches]. *)
Definition is_match (orig f : string) : bool :=
  is_vcf_name f && String.eqb (after_anony f) orig.

(** [ordered]: the low-level matches, sorted, then the high-level ones. *)
Definition ordered (orig : string) (anony_dir : list string) : list string :=
  let matches := filter (λ f, is_match orig f = true) anony_dir in
  let low_matches :=
    filter (λ m, Verifier.startswith m "low_" || Verifier.startswith m "weak_"
                 = true) matches in
  let high_matches :=
    filter (λ m, Verifier.startswith m "high_"
                 || Verifier.startswith m "strong_" = true) matches in
  merge_sort String.le low_matches ++ merge_sort String.le high_matches.

End Files.

(* ===================================================================== *)
(** * The MAF estimators                                                   *)
(* ===================================================================== *)

Section EstimatorFacts.
Context `{FloatOfStr}.

Lemma to_float_agree (x : value) :
  Anonymizer._to_float x = Verifier._to_float x.
Proof. reflexivity. Qed.

Lemma to_float_is_None (x : scalar) :
  is_None (VScalar x) = true → Verifier._to_float (VScalar x) = None.
Proof. by destruct x. Qed.

Lemma py_sum_dyn_floats (l : list Q) (acc : Q) :
  py_sum_dyn acc (Some <$> l) = Ok (fold_left Qplus l acc).
Proof.
  revert acc. induction l as [|x l IH]; intros acc; simpl; [done|].
  apply IH.
Qed.

Lemma py_min_dyn_floats (l : list Q) (m : Q) :
  py_min_dyn m (Some <$> l) = Ok (py_min m l).
Proof.
  revert m. induction l as [|x l IH]; intros m; simpl; [done|].
  apply IH.
Qed.

(** Filtering [None] before the conversion is redundant once the failed
    conversions are dropped afterwards. *)
Lemma parsed_omap (l : list scalar) :
  Verifier.parsed l = omap (λ a, Verifier._to_float (VScalar a)) l.
Proof.
  unfold Verifier.parsed.
  induction l as [|a l IH]; [done|].
  rewrite filter_cons. destruct (decide (is_None (VScalar a) = false)) as [Hn|Hn].
  - rewrite fmap_cons. cbn [omap list_omap id]. by rewrite IH.
  - cbn [omap list_omap]. rewrite to_float_is_None; [done|]. by destruct (is_None a).
Qed.

(** When every entry that is not [None] converts, the anonymizer's list
    of converted entries holds no [None]. *)
Lemma converted_all_floats (l : list scalar) :
  (∀ x, x ∈ l → x ≠ SNone → is_Some (Verifier._to_float (VScalar x))) →
  (λ x, Anonymizer._to_float (VScalar x)) <$>
    filter (λ x, is_None (VScalar x) = false) l
  = Some <$> Verifier.parsed l.
Proof.
  intros Hl. rewrite parsed_omap.
  induction l as [|a l IH]; [done|].
  rewrite filter_cons.
  destruct (decide (is_None (VScalar a) = false)) as [Hn|Hn].
  - destruct (Hl a) as [q Hq]; [left | by intros -> |].
    rewrite fmap_cons. cbn [omap list_omap]. rewrite to_float_agree, Hq.
    rewrite fmap_cons. f_equal.
    apply IH. intros x Hx. apply Hl. by right.
  - cbn [omap list_omap]. rewrite to_float_is_None by (by destruct (is_None a)).
    apply IH. intros x Hx. apply Hl. by right.
Qed.

Lemma omap_scaled (an : Q) (l : list scalar) :
  omap (λ a, (λ fa, fa / an)%Q <$> Anonymizer._to_float (VScalar a)) l
  = (λ a, a / an)%Q <$> Verifier.parsed l.
Proof.
  rewrite parsed_omap.
  induction l as [|a l IH]; [done|].
  cbn [omap list_omap]. rewrite IH, to_float_agree.
  by destruct (Verifier._to_float (VScalar a)).
Qed.

(** The [AC]/[AN] tier is the same function in both programs. *)
Lemma ac_an_agree (info : gmap string value) :
  Anonymizer.maf_from_ac_an info = Ok (Verifier.maf_from_ac_an info).
Proof.
  unfold Anonymizer.maf_from_ac_an, Verifier.maf_from_ac_an, Verifier.present.
  destruct (info !! "AC") as [vals|]; [|by destruct (info !! "AN") as [v|]; [destruct (is_None v)|]].
  destruct (info !! "AN") as [an_raw|]; [|by destruct (is_None vals)].
  rewrite to_float_agree.
  destruct (is_None an_raw) eqn:Han.
  { destruct an_raw as [[]|]; try discriminate. simpl.
    by destruct (is_None vals). }
  destruct (Verifier._to_float an_raw) as [an|]; [|by destruct (is_None vals)].
  destruct (Qeq_bool an 0 || Qle_bool an 0); [by destruct (is_None vals)|].
  rewrite omap_scaled.
  destruct (is_None vals) eqn:Hv.
  { by destruct vals as [[]|]. }
  by destruct (Verifier.parsed (as_list vals)).
Qed.
End EstimatorFacts.

(** Where the two estimators do agree: on every annotation map whose [MAF]
    entry, when present, is neither [None] nor an empty tuple, and whose
    [AF] entries (consulted when [MAF] is absent) all convert unless they
    are [None], the anonymizer's estimator returns normally with exactly
    the verifier's estimate. *)
Theorem estimators_agree `{FloatOfStr} (info : gmap string value) :
  info !! "MAF" ≠ Some (VScalar SNone) →
  info !! "MAF" ≠ Some (VSeq []) →
  (info !! "MAF" = None →
   ∀ vals x, info !! "AF" = Some vals → x ∈ as_list vals → x ≠ SNone →
             is_Some (Anonymizer._to_float (VScalar x))) →
  Anonymizer.site_maf_from_info info = Ok (Verifier.site_maf_from_info info).
Proof.
  intros Hnone Hempty Haf.
  unfold Anonymizer.site_maf_from_info, Verifier.site_maf_from_info,
    Verifier.present.
  destruct (info !! "MAF") as [v|] eqn:Hmaf.
  - destruct v as [x|[|x xs]]; [|done|done].
    destruct x; try done.
  - specialize (Haf eq_refl).
    destruct (info !! "AF") as [vals|] eqn:Hvals; [|apply ac_an_agree].
    rewrite converted_all_floats by (intros x ??; by apply (Haf vals)).
    destruct (is_None vals) eqn:Hv.
    { destruct vals as [[]|]; try discriminate. simpl. apply ac_an_agree. }
    destruct (Verifier.parsed (as_list vals)) as [|q qs]; [apply ac_an_agree|].
    rewrite py_sum_dyn_floats. cbn [mbind result_bind].
    rewrite py_min_dyn_floats. reflexivity.
Qed.

Lemma estimators_agree_witness :
  @Anonymizer.site_maf_from_info plain_decimal
    {[ "AF" := VSeq [SFloat 0.3; SNone; SStr "0.2"] ]}
  = Ok (@Verifier.site_maf_from_info plain_decimal
          {[ "AF" := VSeq [SFloat 0.3; SNone; SStr "0.2"] ]}).
Proof.
  apply (@estimators_agree plain_decimal).
  - vm_compute. discriminate.
  - vm_compute. discriminate.
  - intros _ vals x Hv. vm_compute in Hv. injection Hv as <-.
    cbn [as_list]. intros Hx Hn.
    repeat (apply elem_of_cons in Hx as [->|Hx]); [| | |by apply elem_of_nil in Hx];
      [by eexists | done | by eexists].
Defined.

(** They do not agree on every annotation map. *)
Lemma estimators_differ :
  ¬ ∀ info : gmap string value,
      @Anonymizer.site_maf_from_info plain_decimal info
      = Ok (@Verifier.site_maf_from_info plain_decimal info).
Proof.
  intros Hall. specialize (Hall (<[ "MAF" := VScalar SNone ]> {[ "AF" := VScalar (SFloat 0.3) ]})).
  vm_compute in Hall. discriminate.
Qed.

(** C1.  The two estimators are not the same function, although the
    verifier's is written to mirror the anonymizer's.  Whenever the [MAF]
    key is present with the value [None], the anonymizer stops at its [MAF]
    tier with no estimate, while the verifier, which also tests
    [info["MAF"] is not None], goes on to [AF] and [AC]/[AN] exactly as if
    the key were absent.  With [AF = 0.001] and the threshold [0.01] the
    anonymizer at level high therefore keeps the record, and the verifier,
    run on the input and on the anonymizer's own output, files the site as
    a MAF target and reports it as not masked. *)
Theorem none_maf_estimators_diverge `{FloatOfStr} (info : gmap string value) :
  (Anonymizer.site_maf_from_info (<[ "MAF" := VScalar SNone ]> info) = Ok None
   ∧ Verifier.site_maf_from_info (<[ "MAF" := VScalar SNone ]> info)
     = Verifier.site_maf_from_info (delete "MAF" info))
  ∧ let rec :=
      Record "chr1" 100 (Some [str "AC"])
        (<[ "MAF" := VScalar SNone ]> {[ "AF" := VScalar (SFloat 0.001) ]}) in
    @Anonymizer.site_maf_from_info plain_decimal (Vcf.info rec) = Ok None
    ∧ @Verifier.site_maf_from_info plain_decimal (Vcf.info rec) = Some 0.001%Q
    ∧ @Anonymizer.anonymize_record plain_decimal High 0.01 1 6 7 rec = Ok rec
    ∧ let r :=
        @Verifier.verify_pair plain_decimal "high_0.01_anony_s1.vcf.gz"
          [rec] [rec] [] 0.01 [] (Verifier.build_str_patterns 1 6 7) in
      Verifier.variant_targets r = 1%nat
      ∧ Verifier.variant_masked r = 0%nat
      ∧ Verifier.verification_result r = "fail"
      ∧ Verifier.unmasked_positions r = "chr1:100".
Proof.
  split.
  - split.
    + unfold Anonymizer.site_maf_from_info. by rewrite lookup_insert_eq.
    + unfold Verifier.site_maf_from_info, Verifier.maf_from_ac_an,
        Verifier.present.
      rewrite lookup_insert_eq, lookup_delete_eq.
      rewrite !lookup_insert_ne, !lookup_delete_ne by done. reflexivity.
  - cbv zeta. repeat split; vm_compute; reflexivity.
Qed.

(** C4.  On [AF = ("abc",)] the anonymizer's estimator keeps the failed
    conversion in its list and [sum] raises [TypeError]; the verifier's
    estimator drops the entry and returns no estimate. *)
Theorem anonymizer_estimator_raises :
  @Anonymizer.site_maf_from_info plain_decimal {[ "AF" := VSeq [SStr "abc"] ]}
  = Raise TypeError
  ∧ @Verifier.site_maf_from_info plain_decimal {[ "AF" := VSeq [SStr "abc"] ]}
    = None.
Proof. split; vm_compute; reflexivity. Qed.

(* ===================================================================== *)
(** * The pattern engine                                                   *)
(* ===================================================================== *)

Section ReFacts.
Local Open Scope nat_scope.
Implicit Types (motif s t : list ascii) (c n fuel : nat).

Lemma starts_with_app motif s :
  Re.starts_with motif s = true ↔ ∃ t, s = motif ++ t.
Proof.
  revert s. induction motif as [|a motif IH]; intros s; simpl.
  - split; [by eexists|done].
  - destruct s as [|b s]; [split; [done|by intros [t ?]]|].
    rewrite andb_true_iff, IH, Ascii.eqb_eq. split.
    + intros [-> [t ->]]. by eexists.
    + intros [t [= -> ->]]. eauto.
Qed.

Lemma length_rep motif c : length (Re.rep motif c) = c * length motif.
Proof. induction c; simpl; [done|]. rewrite length_app. lia. Qed.

(** With enough fuel, [copies_upto] peels off exactly the leading copies. *)
Lemma copies_upto_spec fuel motif s :
  motif ≠ [] → length s ≤ fuel →
  ∃ t, s = Re.rep motif (Re.copies_upto fuel motif s) ++ t
       ∧ Re.starts_with motif t = false.
Proof.
  intros Hm. revert s. induction fuel as [|fuel IH]; intros s Hs.
  - destruct s; [|simpl in Hs; lia]. exists []. split; [done|].
    by destruct motif.
  - simpl. destruct (Re.starts_with motif s) eqn:Hsw.
    + apply starts_with_app in Hsw as [t ->].
      rewrite drop_app_length.
      destruct (IH t) as [t' [Ht Hn]].
      { rewrite length_app in Hs. destruct motif; [done|simpl in Hs; lia]. }
      exists t'. split; [|done]. simpl. rewrite <- app_assoc. by f_equal.
    + by exists s.
Qed.

Lemma copies_spec motif s :
  motif ≠ [] →
  ∃ t, s = Re.rep motif (Re.copies motif s) ++ t
       ∧ Re.starts_with motif t = false.
Proof. intros. by apply copies_upto_spec. Qed.

(** Greedy: no decomposition has more leading copies. *)
Lemma copies_upto_max fuel motif c t :
  motif ≠ [] → length (Re.rep motif c ++ t) ≤ fuel →
  c ≤ Re.copies_upto fuel motif (Re.rep motif c ++ t).
Proof.
  intros Hm. revert c. induction fuel as [|fuel IH]; intros c Hl.
  - destruct c; [lia|]. simpl in Hl. rewrite !length_app in Hl.
    destruct motif; [done|simpl in Hl; lia].
  - destruct c as [|c]; [lia|]. simpl.
    assert (Re.starts_with motif ((motif ++ Re.rep motif c) ++ t) = true) as ->.
    { apply starts_with_app. eexists. by rewrite <- app_assoc. }
    rewrite <- app_assoc, drop_app_length.
    apply le_n_S, IH. simpl in Hl. rewrite <- app_assoc, length_app in Hl.
    destruct motif; [done|simpl in Hl; lia].
Qed.

Lemma copies_max motif c t :
  motif ≠ [] → c ≤ Re.copies motif (Re.rep motif c ++ t).
Proof. intros. by apply copies_upto_max. Qed.

Lemma in_run_shift motif n s k i :
  Re.in_run motif n (drop k s) i → Re.in_run motif n s (k + i).
Proof.
  intros (a & c & Hn & Hc & Hrun & Hi).
  exists (k + a), c. rewrite drop_drop in Hrun. repeat split; try done; lia.
Qed.

Section Sub.
Variables (motif : list ascii) (n : nat).
Variable repl : list ascii → result (list ascii).
Hypothesis motif_nonempty : motif ≠ [].
Hypothesis repl_ok :
  ∀ seg, ∃ r, repl seg = Ok r ∧ length r = length seg.

(** [re.sub] returns, keeps the length, and alters only positions
    inside qualifying runs. *)
Lemma sub_upto_frame fuel s :
  length s ≤ fuel →
  ∃ out, Re.sub_upto fuel motif n repl s = Ok out
         ∧ length out = length s
         ∧ ∀ i, out !! i ≠ s !! i → Re.in_run motif n s i.
Proof.
  revert s. induction fuel as [|fuel IH]; intros s Hs.
  { destruct s; [|simpl in Hs; lia]. by exists []. }
  destruct s as [|ch rest]; [by exists []|].
  cbn [Re.sub_upto].
  destruct (copies_spec motif (ch :: rest) motif_nonempty) as (t & Hdec & _).
  set (c := Re.copies motif (ch :: rest)) in *. clearbody c.
  destruct ((n <=? c) && (0 <? c)) eqn:Hq.
  - apply andb_true_iff in Hq as [Hn%Nat.leb_le Hc%Nat.ltb_lt].
    rewrite <- (length_rep motif c).
    rewrite Hdec in Hs |- *. rewrite take_app_length, drop_app_length.
    destruct (repl_ok (Re.rep motif c)) as (r & -> & Hr).
    destruct (IH t) as (out & -> & Hlen & Hframe).
    { assert (0 < length (Re.rep motif c)).
      { rewrite length_rep. destruct motif; [done|simpl; nia]. }
      rewrite length_app in Hs. lia. }
    exists (r ++ out). split; [done|]. split.
    { rewrite !length_app. lia. }
    intros i Hi. destruct (decide (i < length r)) as [Hlt|Hge].
    + exists 0, c. rewrite drop_0.
      rewrite <- (length_rep motif c), take_app_length.
      repeat split; try done; lia.
    + rewrite lookup_app_r in Hi by lia.
      rewrite (lookup_app_r (Re.rep motif c)) in Hi by lia.
      rewrite Hr in Hi. apply Hframe in Hi.
      replace i with (length (Re.rep motif c) + (i - length (Re.rep motif c)))
        by lia.
      apply in_run_shift. by rewrite drop_app_length.
  - destruct (IH rest) as (out & -> & Hlen & Hframe); [simpl in Hs; lia|].
    exists (ch :: out). split; [done|]. split; [simpl; lia|].
    intros [|i] Hi; [done|]. simpl in Hi. apply Hframe in Hi.
    by apply (in_run_shift motif n (ch :: rest) 1 i).
Qed.
End Sub.

(** ** The replacement functions of [mask_str] *)

Lemma chunks_upto_cons fuel k chunk rest :
  0 < k → length chunk = k → length (chunk ++ rest) ≤ fuel →
  Anonymizer.chunks_upto fuel k (chunk ++ rest)
  = chunk :: Anonymizer.chunks_upto (fuel - 1) k rest.
Proof.
  intros Hk Hc Hf. destruct fuel as [|fuel].
  { rewrite length_app in Hf. lia. }
  simpl. rewrite Nat.sub_0_r, <- Hc, take_app_length, drop_app_length.
  destruct chunk; [simpl in Hc; lia|done].
Qed.

Lemma chunks_upto_fuel fuel fuel' k seg :
  0 < k → length seg ≤ fuel → length seg ≤ fuel' →
  Anonymizer.chunks_upto fuel k seg = Anonymizer.chunks_upto fuel' k seg.
Proof.
  intros Hk. revert fuel' seg.
  induction fuel as [|fuel IH]; intros fuel' seg Hf Hf'.
  { destruct seg; [|simpl in Hf; lia]. by destruct fuel'. }
  destruct fuel' as [|fuel'].
  { destruct seg; [done|simpl in Hf'; lia]. }
  destruct seg as [|x seg]; [done|]. cbn [Anonymizer.chunks_upto]. f_equal.
  apply IH; rewrite length_drop; simpl in *; lia.
Qed.

Lemma chunks_cons k chunk rest :
  0 < k → length chunk = k →
  Anonymizer.chunks k (chunk ++ rest) = chunk :: Anonymizer.chunks k rest.
Proof.
  intros Hk Hc. unfold Anonymizer.chunks.
  rewrite chunks_upto_cons by done. f_equal.
  apply chunks_upto_fuel; [done| |done]. rewrite length_app. lia.
Qed.

Lemma chunks_join fuel k seg :
  0 < k → length seg ≤ fuel → mjoin (Anonymizer.chunks_upto fuel k seg) = seg.
Proof.
  intros Hk. revert seg. induction fuel as [|fuel IH]; intros seg Hf.
  { by destruct seg; [|simpl in Hf; lia]. }
  destruct seg as [|x seg]; [done|]. cbn [Anonymizer.chunks_upto mjoin list_join].
  rewrite IH; [apply take_drop|]. rewrite length_drop. simpl in *. lia.
Qed.

Lemma chunks_lengths fuel k seg chunk :
  chunk ∈ Anonymizer.chunks_upto fuel k seg → chunk = [] ∨ length chunk ≤ k.
Proof.
  revert seg. induction fuel as [|fuel IH]; intros seg; simpl.
  { by intros ?%elem_of_nil. }
  destruct seg as [|x seg]; [by intros ?%elem_of_nil|].
  intros [->|Hin]%elem_of_cons; [|by eapply IH].
  right. rewrite length_take. lia.
Qed.

Lemma masked_chunk_length motif chunk :
  motif ≠ [] → length (Anonymizer.masked_chunk motif chunk) = length chunk.
Proof.
  intros Hm. unfold Anonymizer.masked_chunk. case_bool_decide as Heq; [|done].
  subst chunk. rewrite length_app, length_take, length_replicate.
  destruct motif; [done|simpl; lia].
Qed.

Lemma repl_ok motif seg :
  motif ≠ [] → ∃ r, Anonymizer.repl motif seg = Ok r ∧ length r = length seg.
Proof.
  intros Hm. unfold Anonymizer.repl.
  destruct (length motif =? 0) eqn:Hz.
  { apply Nat.eqb_eq in Hz. by destruct motif. }
  apply Nat.eqb_neq in Hz. eexists. split; [done|].
  unfold Anonymizer.chunks.
  trans (length (mjoin (Anonymizer.chunks_upto (length seg) (length motif) seg)));
    [|by rewrite chunks_join by lia].
  generalize (Anonymizer.chunks_upto (length seg) (length motif) seg).
  intros l. induction l as [|x l IH]; [done|].
  change (length (Anonymizer.masked_chunk motif x
                  ++ mjoin (Anonymizer.masked_chunk motif <$> l))
          = length (x ++ mjoin l)).
  rewrite !length_app, IH. f_equal. by apply masked_chunk_length.
Qed.

Lemma repl_cons motif chunk rest :
  motif ≠ [] → length chunk = length motif →
  ∃ r, Anonymizer.repl motif rest = Ok r
       ∧ Anonymizer.repl motif (chunk ++ rest)
         = Ok (Anonymizer.masked_chunk motif chunk ++ r).
Proof.
  intros Hm Hc. unfold Anonymizer.repl.
  destruct (length motif =? 0) eqn:Hz.
  { apply Nat.eqb_eq in Hz. by destruct motif. }
  apply Nat.eqb_neq in Hz. eexists. split; [done|].
  rewrite chunks_cons by lia. reflexivity.
Qed.

Lemma repl_rep motif c :
  motif ≠ [] →
  Anonymizer.repl motif (Re.rep motif c)
  = Ok (Re.rep (take 1 motif ++ replicate (length motif - 1) "N"%char) c).
Proof.
  intros Hm. induction c as [|c IH].
  { unfold Anonymizer.repl. by destruct motif. }
  simpl. destruct (repl_cons motif motif (Re.rep motif c) Hm eq_refl)
    as (r & Hr & ->).
  rewrite IH in Hr. injection Hr as <-.
  unfold Anonymizer.masked_chunk. by rewrite bool_decide_eq_true_2.
Qed.

(** ** The first match *)

Lemma first_run_spec motif n s a b :
  motif ≠ [] → Re.first_run motif n s = Some (a, b) →
  ∃ c, n ≤ c ∧ 0 < c ∧ b = a + c * length motif
       ∧ take (c * length motif) (drop a s) = Re.rep motif c.
Proof.
  intros Hm. revert a b. induction s as [|ch rest IH]; intros a b; [done|].
  cbn [Re.first_run].
  destruct (copies_spec motif (ch :: rest) Hm) as (t & Hdec & _).
  set (c := Re.copies motif (ch :: rest)) in *. clearbody c.
  destruct ((n <=? c) && (0 <? c)) eqn:Hq.
  - intros [= <- <-].
    apply andb_true_iff in Hq as [Hn%Nat.leb_le Hc%Nat.ltb_lt].
    exists c. repeat split; try done.
    by rewrite drop_0, Hdec, <- (length_rep motif c), take_app_length.
  - destruct (Re.first_run motif n rest) as [[a' b']|]; [|done].
    intros [= <- <-]. destruct (IH a' b' eq_refl) as (c' & ? & ? & -> & Hrun).
    exists c'. repeat split; try done.
Qed.

Lemma first_run_exists motif n pre c post :
  motif ≠ [] → n ≤ c → 0 < c →
  ∃ a b, Re.first_run motif n (pre ++ Re.rep motif c ++ post) = Some (a, b).
Proof.
  intros Hm Hn Hc. induction pre as [|x pre IH].
  - pose proof (copies_max motif c post Hm) as Hmax.
    assert (Hne : ∃ y ys, Re.rep motif c ++ post = y :: ys).
    { destruct c; [lia|]. destruct motif; [done|]. simpl. eauto. }
    destruct Hne as (y & ys & Hys). simpl. rewrite Hys in Hmax |- *.
    cbn [Re.first_run].
    assert ((n <=? Re.copies motif (y :: ys)) && (0 <? Re.copies motif (y :: ys))
            = true) as ->; [|by eauto].
    apply andb_true_iff. split; [apply Nat.leb_le|apply Nat.ltb_lt]; lia.
  - destruct IH as (a & b & IH). simpl. cbn [Re.first_run]. rewrite IH.
    destruct (_ && _); simpl; eauto.
Qed.

Section SubFirst.
Variables (motif : list ascii) (n : nat).
Variable repl : list ascii → result (list ascii).
Hypothesis motif_nonempty : motif ≠ [].
Hypothesis repl_ok :
  ∀ seg, ∃ r, repl seg = Ok r ∧ length r = length seg.

(** [re.sub] copies the text before the first match and puts the
    replacement of that match in its place. *)
Lemma sub_upto_first_run fuel s a b :
  length s ≤ fuel → Re.first_run motif n s = Some (a, b) →
  ∃ r out, repl (take (b - a) (drop a s)) = Ok r
           ∧ Re.sub_upto fuel motif n repl s = Ok (take a s ++ r ++ out).
Proof.
  revert s a b. induction fuel as [|fuel IH]; intros s a b Hs.
  { by destruct s; [|simpl in Hs; lia]. }
  destruct s as [|ch rest]; [done|].
  cbn [Re.sub_upto Re.first_run].
  destruct ((n <=? Re.copies motif (ch :: rest))
            && (0 <? Re.copies motif (ch :: rest))) eqn:Hq.
  - intros [= <- <-]. rewrite Nat.sub_0_r, drop_0.
    set (len := Re.copies motif (ch :: rest) * length motif).
    destruct (repl_ok (take len (ch :: rest))) as (r & Hr & _).
    destruct (sub_upto_frame motif n repl motif_nonempty repl_ok fuel
                (drop len (ch :: rest))) as (out & Hout & _).
    { apply andb_true_iff in Hq as [_ Hc%Nat.ltb_lt].
      rewrite length_drop. simpl in Hs.
      assert (0 < len); [|simpl; lia].
      subst len. destruct motif; [done|simpl; nia]. }
    exists r, out. by rewrite Hr, Hout.
  - destruct (Re.first_run motif n rest) as [[a' b']|] eqn:Hfr; [|done].
    intros [= <- <-].
    destruct (IH rest a' b') as (r & out & Hr & ->); [simpl in Hs; lia|done|].
    exists r, out. split; [|done].
    by replace (S b' - S a') with (b' - a') by lia.
Qed.

Lemma sub_first_run s a b :
  Re.first_run motif n s = Some (a, b) →
  ∃ r out, repl (take (b - a) (drop a s)) = Ok r
           ∧ Re.sub motif n repl s = Ok out
           ∧ length out = length s
           ∧ take a out = take a s
           ∧ take (b - a) (drop a out) = r.
Proof.
  intros Hfr. unfold Re.sub.
  destruct (sub_upto_first_run (length s) s a b) as (r & out' & Hr & Hsub);
    [done..|].
  destruct (sub_upto_frame motif n repl motif_nonempty repl_ok (length s) s)
    as (out & Hout & Hlen & _); [done|].
  rewrite Hsub in Hout. injection Hout as <-.
  destruct (first_run_spec motif n s a b motif_nonempty Hfr)
    as (c & _ & Hc & -> & Hrun).
  assert (Hrl : length r = c * length motif).
  { destruct (repl_ok (take (a + c * length motif - a) (drop a s)))
      as (r' & Hr' & Hl). rewrite Hr in Hr'. injection Hr' as <-.
    rewrite Hl. replace (a + c * length motif - a) with (c * length motif) by lia.
    by rewrite Hrun, length_rep. }
  assert (Ha : a < length s).
  { apply (f_equal length) in Hrun.
    rewrite length_rep, length_take, length_drop in Hrun.
    assert (0 < c * length motif) by (destruct motif; [done|simpl; nia]).
    lia. }
  assert (Hta : length (take a s) = a) by (rewrite length_take; lia).
  exists r, (take a s ++ r ++ out'). repeat split; try done.
  - by rewrite take_app_length' by done.
  - rewrite drop_app_length' by done.
    apply take_app_length'. lia.
Qed.
End SubFirst.

(** ** Detection *)

Lemma search_here p s u :
  Re.match_here p s = Some u → Re.search p s = Some u.
Proof. intros Hm. destruct s; simpl; by rewrite Hm. Qed.


Lemma search_sound p s u :
  Re.search p s = Some u → ∃ i, Re.match_here p (drop i s) = Some u.
Proof.
  induction s as [|x s IH]; simpl.
  - destruct (Re.match_here p []) eqn:Hm; [|done].
    intros [= ->]. by exists 0.
  - destruct (Re.match_here p (x :: s)) eqn:Hm.
    + intros [= ->]. by exists 0.
    + intros [i Hi]%IH. by exists (S i).
Qed.



Lemma match_here_sound k n t u :
  1 ≤ k → 1 ≤ n → Re.match_here (Re.Pattern k n) t = Some u →
  length u = k ∧ ∃ c t', n ≤ c ∧ t = Re.rep u c ++ t'.
Proof.
  intros Hk Hn. unfold Re.match_here. cbn [Re.pat_k Re.pat_min_repeat].
  destruct n as [|n]; [lia|].
  destruct (bool_decide (length (take k t) = k)) eqn:Hlen; [|done].
  apply bool_decide_eq_true in Hlen.
  destruct (forallb Re.is_ACGT (take k t)); [|done]. simpl.
  destruct (take k t) as [|x u'] eqn:Hu; [simpl in Hlen; lia|].
  destruct (n <=? Re.copies (x :: u') (drop k t)) eqn:Hc; [|done].
  intros [= <-]. split; [done|]. apply Nat.leb_le in Hc.
  destruct (copies_spec (x :: u') (drop k t)) as (t' & Hdec & _); [done|].
  exists (S (Re.copies (x :: u') (drop k t))), t'. split; [lia|].
  cbn [Re.rep]. rewrite <- app_assoc, <- Hdec, <- Hu. by rewrite take_drop.
Qed.

(** The loop over the compiled patterns returns the motif of the
    shortest motif length that matches. *)
Lemma detect_first n s u len min_motif :
  Anonymizer.detect ((λ k, Re.Pattern k n) <$> seq min_motif len) s = Some u →
  ∃ k, min_motif ≤ k < min_motif + len
       ∧ Re.search (Re.Pattern k n) s = Some u
       ∧ ∀ k', min_motif ≤ k' < k → Re.search (Re.Pattern k' n) s = None.
Proof.
  revert min_motif. induction len as [|len IH]; intros min_motif; [done|].
  cbn [seq fmap list_fmap Anonymizer.detect].
  destruct (Re.search (Re.Pattern min_motif n) s) as [u'|] eqn:Hs.
  - intros [= ->]. exists min_motif. repeat split; [lia..|done|lia].
  - intros (k & Hk & Hsk & Hmin)%IH. exists k. repeat split; [lia..|done|].
    intros k' Hk'. destruct (decide (k' = min_motif)) as [->|]; [done|].
    apply Hmin. lia.
Qed.

(** ** Every match of the scan *)

Lemma rep_occurrence_length motif c p s :
  motif ≠ [] → 0 < c →
  take (c * length motif) (drop p s) = Re.rep motif c →
  p + c * length motif ≤ length s.
Proof.
  intros Hm Hc Hrun. apply (f_equal length) in Hrun.
  rewrite length_rep, length_take, length_drop in Hrun.
  assert (0 < c * length motif) by (destruct motif; [done|simpl; nia]).
  lia.
Qed.

Lemma head_runs_upto fuel motif n s :
  length s ≤ fuel →
  head (Re.runs_upto fuel motif n s) = Re.first_run motif n s.
Proof.
  revert s. induction fuel as [|fuel IH]; intros s Hs.
  { by destruct s; [|simpl in Hs; lia]. }
  destruct s as [|ch rest]; [done|]. cbn [Re.runs_upto Re.first_run].
  destruct (_ && _); [done|].
  rewrite <- IH by (simpl in Hs; lia).
  by destruct (Re.runs_upto fuel motif n rest) as [|[a b] l].
Qed.

Section SubRuns.
Variables (motif : list ascii) (n : nat).
Variable repl : list ascii → result (list ascii).
Hypothesis motif_nonempty : motif ≠ [].
Hypothesis repl_ok :
  ∀ seg, ∃ r, repl seg = Ok r ∧ length r = length seg.

(** [re.sub] rewrites every match it meets and nothing else, and every
    place where a qualifying run starts lies in one of its matches. *)
Lemma sub_upto_runs fuel s :
  length s ≤ fuel →
  ∃ out, Re.sub_upto fuel motif n repl s = Ok out
    ∧ length out = length s
    ∧ (∀ a b, (a, b) ∈ Re.runs_upto fuel motif n s →
         ∃ c r, n ≤ c ∧ 0 < c ∧ b = a + c * length motif
                ∧ take (b - a) (drop a s) = Re.rep motif c
                ∧ Re.starts_with motif (drop b s) = false
                ∧ repl (Re.rep motif c) = Ok r
                ∧ take (b - a) (drop a out) = r)
    ∧ (∀ i, (∀ a b, (a, b) ∈ Re.runs_upto fuel motif n s → ¬ a ≤ i < b) →
            out !! i = s !! i)
    ∧ (∀ p c, n ≤ c → 0 < c →
              take (c * length motif) (drop p s) = Re.rep motif c →
              ∃ a b, (a, b) ∈ Re.runs_upto fuel motif n s ∧ a ≤ p < b).
Proof.
  revert s. induction fuel as [|fuel IH]; intros s Hs.
  { destruct s; [|simpl in Hs; lia]. exists []. repeat split; try done.
    - by intros a b ?%elem_of_nil.
    - intros p c _ Hc Hrun.
      apply rep_occurrence_length in Hrun; [|done..].
      assert (0 < c * length motif) by (destruct motif; [done|simpl; nia]).
      simpl in Hrun. lia. }
  destruct s as [|ch rest].
  { exists []. repeat split; try done.
    - by intros a b ?%elem_of_nil.
    - intros p c _ Hc Hrun.
      apply rep_occurrence_length in Hrun; [|done..].
      assert (0 < c * length motif) by (destruct motif; [done|simpl; nia]).
      simpl in Hrun. lia. }
  cbn [Re.sub_upto Re.runs_upto].
  destruct (copies_spec motif (ch :: rest) motif_nonempty) as (t & Hdec & Ht).
  pose proof (λ c t', copies_max motif c t' motif_nonempty) as Hmax.
  set (c0 := Re.copies motif (ch :: rest)) in *.
  destruct ((n <=? c0) && (0 <? c0)) eqn:Hq.
  - apply andb_true_iff in Hq as [Hn%Nat.leb_le Hc%Nat.ltb_lt].
    clearbody c0.
    assert (Hlen : length (Re.rep motif c0) = c0 * length motif)
      by apply length_rep.
    assert (Hpos : 0 < c0 * length motif)
      by (destruct motif; [done|simpl; nia]).
    rewrite <- Hlen. rewrite Hdec in Hs |- *.
    rewrite take_app_length, drop_app_length.
    destruct (repl_ok (Re.rep motif c0)) as (r & Hr & Hrl). rewrite Hr.
    destruct (IH t) as (out & -> & Hl & Hruns & Hframe & Hcover).
    { rewrite length_app in Hs. lia. }
    exists (r ++ out). split; [done|]. split; [rewrite !length_app; lia|].
    split; [|split].
    + intros a b [[= -> ->]|Hin]%elem_of_cons.
      * exists c0, r. rewrite Nat.sub_0_r, !drop_0.
        split_and!; try done.
        all: [> by rewrite take_app_length
           | by rewrite drop_app_length
           | rewrite <- Hrl; by rewrite take_app_length].
      * apply list_elem_of_fmap in Hin as ([a' b'] & [= -> ->] & Hin).
        destruct (Hruns a' b' Hin)
          as (c & r' & ? & ? & Hb & Hs' & Hg' & Hr' & Ho').
        exists c, r'.
        replace (length (Re.rep motif c0) + b' - (length (Re.rep motif c0) + a'))
          with (b' - a') by lia.
        split_and!; try done; [lia| | |].
        -- by rewrite <- drop_drop, drop_app_length.
        -- by rewrite <- drop_drop, drop_app_length.
        -- rewrite <- Hrl. by rewrite <- drop_drop, drop_app_length.
    + intros i Hi.
      destruct (decide (i < length (Re.rep motif c0))) as [Hlt|Hge].
      { destruct (Hi 0 (length (Re.rep motif c0))); [left|lia]. }
      rewrite !lookup_app_r by lia. rewrite Hrl. apply Hframe.
      intros a b Hin Hab.
      apply (Hi (length (Re.rep motif c0) + a) (length (Re.rep motif c0) + b));
        [|lia].
      right. apply list_elem_of_fmap. by exists (a, b).
    + intros p c Hnc Hc' Hrun.
      destruct (decide (p < length (Re.rep motif c0))) as [Hlt|Hge].
      { exists 0, (length (Re.rep motif c0)). split; [left|lia]. }
      replace p with (length (Re.rep motif c0) + (p - length (Re.rep motif c0)))
        in Hrun by lia.
      rewrite <- drop_drop, drop_app_length in Hrun.
      destruct (Hcover _ c Hnc Hc' Hrun) as (a & b & Hin & Hab).
      exists (length (Re.rep motif c0) + a), (length (Re.rep motif c0) + b).
      split; [|lia]. right. apply list_elem_of_fmap. by exists (a, b).
  - destruct (IH rest) as (out & -> & Hl & Hruns & Hframe & Hcover);
      [simpl in Hs; lia|].
    exists (ch :: out). split; [done|]. split; [simpl; lia|].
    split; [|split].
    + intros a b Hin.
      apply list_elem_of_fmap in Hin as ([a' b'] & [= -> ->] & Hin).
      destruct (Hruns a' b' Hin)
        as (c & r' & ? & ? & Hb & Hs' & Hg' & Hr' & Ho').
      exists c, r'. repeat split; try done. lia.
    + intros [|i] Hi; [done|]. simpl. apply Hframe.
      intros a b Hin Hab. apply (Hi (S a) (S b)); [|lia].
      apply list_elem_of_fmap. by exists (a, b).
    + intros [|p] c Hnc Hc' Hrun.
      * exfalso. rewrite drop_0 in Hrun.
        pose proof (Hmax c (drop (c * length motif) (ch :: rest))) as Hm.
        rewrite <- Hrun, take_drop in Hm. fold c0 in Hm.
        apply andb_false_iff in Hq as [Hq%Nat.leb_gt|Hq%Nat.ltb_ge]; lia.
      * simpl in Hrun. destruct (Hcover p c Hnc Hc' Hrun) as (a & b & Hin & Hab).
        exists (S a), (S b). split; [|lia].
        apply list_elem_of_fmap. by exists (a, b).
Qed.
End SubRuns.

Lemma acgt_no_N motif c :
  forallb Re.is_ACGT motif = true → "N"%char ∉ Re.rep motif c.
Proof.
  intros Hm Hin. induction c as [|c IH]; [by apply elem_of_nil in Hin|].
  simpl in Hin. apply elem_of_app in Hin as [Hin|Hin]; [|by apply IH].
  rewrite forallb_forall in Hm. apply list_elem_of_In, Hm in Hin. done.
Qed.

(** What [mask_str] writes in place of [c] copies of the motif. *)
Lemma masked_run_differs motif c :
  motif ≠ [] → forallb Re.is_ACGT motif = true → 0 < c →
  (if length motif =? 1 then replicate c "N"%char
   else Re.rep (take 1 motif ++ replicate (length motif - 1) "N"%char) c)
  ≠ Re.rep motif c.
Proof.
  intros Hm Hacgt Hc Heq.
  apply (acgt_no_N motif c Hacgt). rewrite <- Heq.
  destruct c as [|c]; [lia|].
  destruct (length motif =? 1) eqn:H1; [left|].
  destruct motif as [|x [|y motif']]; [done|done|]. simpl. right. left.
Qed.

(** [mask_str] along the scan of [re.sub]. *)
Lemma mask_str_scan seq motif n :
  motif ≠ [] →
  forallb Re.is_ACGT motif = true →
  ∃ out, Anonymizer.mask_str seq motif n = Ok out
    ∧ length out = length seq
    ∧ (∀ i, out !! i ≠ seq !! i → Re.in_run motif n seq i)
    ∧ (∀ a b, (a, b) ∈ Re.runs motif n seq →
         ∃ c, n ≤ c ∧ 0 < c ∧ b = a + c * length motif
              ∧ take (b - a) (drop a seq) = Re.rep motif c
              ∧ Re.starts_with motif (drop b seq) = false
              ∧ take (b - a) (drop a out)
                = (if length motif =? 1 then replicate c "N"%char
                   else Re.rep (take 1 motif
                                ++ replicate (length motif - 1) "N"%char) c)
              ∧ take (b - a) (drop a out) ≠ take (b - a) (drop a seq))
    ∧ (∀ i, (∀ a b, (a, b) ∈ Re.runs motif n seq → ¬ a ≤ i < b) →
            out !! i = seq !! i)
    ∧ (∀ p c, n ≤ c → 0 < c →
              take (c * length motif) (drop p seq) = Re.rep motif c →
              ∃ a b, (a, b) ∈ Re.runs motif n seq ∧ a ≤ p < b)
    ∧ head (Re.runs motif n seq) = Re.first_run motif n seq.
Proof.
  intros Hm Hacgt.
  assert (Hgen : ∀ repl : list ascii → result (list ascii),
    (∀ seg, ∃ r, repl seg = Ok r ∧ length r = length seg) →
    (∀ c, repl (Re.rep motif c)
          = Ok (if length motif =? 1 then replicate c "N"%char
                else Re.rep (take 1 motif
                             ++ replicate (length motif - 1) "N"%char) c)) →
    ∃ out, Re.sub motif n repl seq = Ok out
      ∧ length out = length seq
      ∧ (∀ i, out !! i ≠ seq !! i → Re.in_run motif n seq i)
      ∧ (∀ a b, (a, b) ∈ Re.runs motif n seq →
           ∃ c, n ≤ c ∧ 0 < c ∧ b = a + c * length motif
                ∧ take (b - a) (drop a seq) = Re.rep motif c
                ∧ Re.starts_with motif (drop b seq) = false
                ∧ take (b - a) (drop a out)
                  = (if length motif =? 1 then replicate c "N"%char
                     else Re.rep (take 1 motif
                                  ++ replicate (length motif - 1) "N"%char) c)
                ∧ take (b - a) (drop a out) ≠ take (b - a) (drop a seq))
      ∧ (∀ i, (∀ a b, (a, b) ∈ Re.runs motif n seq → ¬ a ≤ i < b) →
              out !! i = seq !! i)
      ∧ (∀ p c, n ≤ c → 0 < c →
                take (c * length motif) (drop p seq) = Re.rep motif c →
                ∃ a b, (a, b) ∈ Re.runs motif n seq ∧ a ≤ p < b)
      ∧ head (Re.runs motif n seq) = Re.first_run motif n seq).
  { intros repl Hok Hrep. unfold Re.sub, Re.runs.
    destruct (sub_upto_runs motif n repl Hm Hok (length seq) seq)
      as (out & Hout & Hl & Hruns & Hframe & Hcover); [done|].
    destruct (sub_upto_frame motif n repl Hm Hok (length seq) seq)
      as (out' & Hout' & _ & Hin); [done|].
    rewrite Hout in Hout'. injection Hout' as <-.
    exists out. split_and!; try done; [|by apply head_runs_upto].
    intros a b Hab.
    destruct (Hruns a b Hab) as (c & r & Hn & Hc & Hb & Hs & Hg & Hr & Ho).
    rewrite Hrep in Hr. injection Hr as <-.
    exists c. split_and!; try done.
    rewrite Ho, Hs. by apply masked_run_differs. }
  unfold Anonymizer.mask_str.
  destruct (length motif =? 1) eqn:H1.
  - apply Hgen.
    + intros seg. eexists. split; [done|]. by rewrite length_replicate.
    + intros c. rewrite length_rep. apply Nat.eqb_eq in H1. rewrite H1.
      by rewrite Nat.mul_1_r.
  - destruct motif as [|x motif']; [done|].
    apply Hgen.
    + intros seg. by apply repl_ok.
    + intros c. by apply repl_rep.
Qed.
End ReFacts.

(** C2 (as amended).  For a non-empty motif over [{A,C,G,T}] (what detection
    hands over), [mask_str] returns a sequence of the same length.  Every
    match that the left-to-right scan of [re.sub] meets ([Re.runs]: the
    leftmost place with at least [min_repeat] contiguous copies, taken
    greedily, then the matches behind it) is rewritten, ['N'] throughout for
    a motif of length 1 and otherwise copy by copy the first character
    followed by ['N']s, and so differs from the input there.  Every position
    outside these matches is kept, in particular every run of another
    motif; a position that differs lies in a run of at least [min_repeat]
    copies; and every place where such a run starts lies in one of the
    matches, the first of which is the first match of [re.search]. *)
Theorem mask_str_frame (seq motif : list ascii) (min_repeat : nat) :
  motif ≠ [] →
  forallb Re.is_ACGT motif = true →
  ∃ out, Anonymizer.mask_str seq motif min_repeat = Ok out
    ∧ length out = length seq
    ∧ (∀ i : nat, out !! i ≠ seq !! i → Re.in_run motif min_repeat seq i)
    ∧ (∀ a b : nat, (a, b) ∈ Re.runs motif min_repeat seq →
         ∃ c : nat,
           (min_repeat ≤ c)%nat ∧ (0 < c)%nat
           ∧ b = (a + c * length motif)%nat
           ∧ take (b - a) (drop a seq) = Re.rep motif c
           ∧ Re.starts_with motif (drop b seq) = false
           ∧ take (b - a) (drop a out)
             = (if (length motif =? 1)%nat then replicate c "N"%char
                else Re.rep (take 1 motif
                             ++ replicate (length motif - 1) "N"%char) c)
           ∧ take (b - a) (drop a out) ≠ take (b - a) (drop a seq))
    ∧ (∀ i : nat,
         (∀ a b : nat, (a, b) ∈ Re.runs motif min_repeat seq →
                       ¬ (a ≤ i < b)%nat) →
         out !! i = seq !! i)
    ∧ (∀ p c : nat,
         (min_repeat ≤ c)%nat → (0 < c)%nat →
         take (c * length motif) (drop p seq) = Re.rep motif c →
         ∃ a b : nat, (a, b) ∈ Re.runs motif min_repeat seq
                      ∧ (a ≤ p < b)%nat)
    ∧ head (Re.runs motif min_repeat seq)
      = Re.first_run motif min_repeat seq.
Proof. apply mask_str_scan. Qed.

Lemma mask_str_frame_witness :
  ∃ out, Anonymizer.mask_str (str "TTACACACGG") (str "AC") 3 = Ok out
    ∧ length out = length (str "TTACACACGG")
    ∧ (∀ i : nat, out !! i ≠ str "TTACACACGG" !! i →
                  Re.in_run (str "AC") 3 (str "TTACACACGG") i)
    ∧ (∀ a b : nat, (a, b) ∈ Re.runs (str "AC") 3 (str "TTACACACGG") →
         ∃ c : nat,
           (3 ≤ c)%nat ∧ (0 < c)%nat
           ∧ b = (a + c * length (str "AC"))%nat
           ∧ take (b - a) (drop a (str "TTACACACGG")) = Re.rep (str "AC") c
           ∧ Re.starts_with (str "AC") (drop b (str "TTACACACGG")) = false
           ∧ take (b - a) (drop a out)
             = (if (length (str "AC") =? 1)%nat then replicate c "N"%char
                else Re.rep (take 1 (str "AC")
                             ++ replicate (length (str "AC") - 1) "N"%char) c)
           ∧ take (b - a) (drop a out)
             ≠ take (b - a) (drop a (str "TTACACACGG")))
    ∧ (∀ i : nat,
         (∀ a b : nat, (a, b) ∈ Re.runs (str "AC") 3 (str "TTACACACGG") →
                       ¬ (a ≤ i < b)%nat) →
         out !! i = str "TTACACACGG" !! i)
    ∧ (∀ p c : nat,
         (3 ≤ c)%nat → (0 < c)%nat →
         take (c * length (str "AC")) (drop p (str "TTACACACGG"))
         = Re.rep (str "AC") c →
         ∃ a b : nat, (a, b) ∈ Re.runs (str "AC") 3 (str "TTACACACGG")
                      ∧ (a ≤ p < b)%nat)
    ∧ head (Re.runs (str "AC") 3 (str "TTACACACGG"))
      = Re.first_run (str "AC") 3 (str "TTACACACGG").
Proof.
  apply (mask_str_frame (str "TTACACACGG") (str "AC") 3);
    [discriminate | reflexivity].
Defined.

(** C2 (as stated) fails: with two runs of seven [A], the second run,
    which lies outside the first match, is rewritten as well. *)
Lemma mask_str_alters_later_runs :
  ∃ out, Anonymizer.mask_str (str "AAAAAAATAAAAAAA") (str "A") 7 = Ok out
         ∧ ¬ Re.only_first_run_altered (str "A") 7 (str "AAAAAAATAAAAAAA") out.
Proof.
  eexists. split; [vm_compute; reflexivity|].
  intros Hframe. specialize (Hframe 8%nat).
  vm_compute in Hframe. discriminate Hframe. lia.
Qed.




(** C5 (as amended).  Masking seven copies of [CAG] with [min_repeat = 7]
    yields seven copies of [CNN], both through [mask_str] with the motif
    [CAG] and through the detection loop with the default motif lengths. *)
Theorem mask_cag_example :
  Anonymizer.mask_str (str "CAGCAGCAGCAGCAGCAGCAG") (str "CAG") 7
  = Ok (str "CNNCNNCNNCNNCNNCNNCNN")
  ∧ Anonymizer.mask_alt (Anonymizer.build_str_patterns 1 6 7) 7
      (str "CAGCAGCAGCAGCAGCAGCAG")
    = Ok (str "CNNCNNCNNCNNCNNCNNCNN", true).
Proof. split; vm_compute; reflexivity. Qed.

(** C5 (as stated) fails: the result is not [CNG] repeated. *)
Lemma mask_cag_not_cng :
  Anonymizer.mask_str (str "CAGCAGCAGCAGCAGCAGCAG") (str "CAG") 7
  ≠ Ok (str "CNGCNGCNGCNGCNGCNGCNG").
Proof. vm_compute. discriminate. Qed.

(* ===================================================================== *)
(** * The verification pass                                                *)
(* ===================================================================== *)

Lemma Qltb_lt (x y : Q) : Qltb x y = true ↔ (x < y)%Q.
Proof.
  unfold Qltb. rewrite negb_true_iff. split.
  - intros Hle. apply Qnot_le_lt. intros Hyx%Qle_bool_iff. congruence.
  - intros Hlt. apply not_true_is_false. intros Hyx%Qle_bool_iff.
    by apply (Qlt_not_le x y).
Qed.

Lemma Qltb_ge (x y : Q) : Qltb x y = false ↔ (y <= x)%Q.
Proof.
  unfold Qltb. rewrite negb_false_iff. apply Qle_bool_iff.
Qed.

Lemma forallb_is_dot (l : list (list ascii)) :
  forallb is_dot l = true ↔ Forall (λ a, a = str ".") l.
Proof.
  rewrite forallb_forall, Forall_forall. unfold is_dot.
  split; intros Hl a Ha.
  - eapply bool_decide_eq_true_1, Hl. by apply list_elem_of_In.
  - apply bool_decide_eq_true_2, Hl. by apply list_elem_of_In.
Qed.

Section VerifierFacts.
Context `{FloatOfStr}.
Implicit Types (st : Verifier.vstate) (rec : record).
Implicit Types (targets : gmap (string * Z) Verifier.target).

(** The step on a target site that is not yet reconciled. *)
Lemma verify_step_unreconciled thr targets st rec t :
  targets !! (chrom rec, pos rec) = Some t →
  (chrom rec, pos rec) ∉ Verifier.var_m_sites st →
  let st' := Verifier.verify_step thr targets st rec in
  if Verifier.judge thr t rec
  then ((chrom rec, pos rec) ∈ Verifier.var_m_sites st'
        ∧ (chrom rec, pos rec) ∉ Verifier.error_sites st')
  else (((chrom rec, pos rec) ∉ Verifier.var_m_sites st')
        ∧ (chrom rec, pos rec) ∈ Verifier.error_sites st').
Proof.
  intros Ht Hs. unfold Verifier.verify_step. rewrite Ht.
  rewrite bool_decide_eq_false_2 by done.
  destruct (Verifier.judge thr t rec); simpl.
  - split; [apply elem_of_union; left; by apply elem_of_singleton|].
    destruct (bool_decide (_ ∈ Verifier.error_sites st)) eqn:He.
    + intros [_ Hne]%elem_of_difference. by apply Hne, elem_of_singleton.
    + by apply bool_decide_eq_false in He.
  - split; [done|]. rewrite bool_decide_eq_true_2 by done.
    apply elem_of_union. left. by apply elem_of_singleton.
Qed.
End VerifierFacts.

(** C6.  At a target site of kind MAF that is not yet reconciled, the
    record makes the site a success exactly when the estimate recomputed
    from its annotations is none, or is at least the threshold, or is below
    the threshold while the alternates are empty, the single ["."], or all
    ["."]; otherwise the site is not a success and is recorded in
    [error_sites]. *)
Theorem maf_site_judgement `{FloatOfStr} (thr : Q)
    (targets : gmap (string * Z) Verifier.target)
    (st : Verifier.vstate) (rec : record) (t : Verifier.target) :
  targets !! (chrom rec, pos rec) = Some t →
  Verifier.t_kind t = Verifier.MAF →
  (chrom rec, pos rec) ∉ Verifier.var_m_sites st →
  let st' := Verifier.verify_step thr targets st rec in
  let est := Verifier.site_maf_from_info (info rec) in
  let alt_mask := alt_tuple (alts rec) in
  ((chrom rec, pos rec) ∈ Verifier.var_m_sites st'
   ↔ est = None
     ∨ (∃ m, est = Some m ∧ (thr <= m)%Q)
     ∨ (∃ m, est = Some m ∧ (m < thr)%Q
             ∧ (alt_mask = [] ∨ alt_mask = [str "."]
                ∨ Forall (λ a, a = str ".") alt_mask)))
  ∧ ((chrom rec, pos rec) ∉ Verifier.var_m_sites st'
     → (chrom rec, pos rec) ∈ Verifier.error_sites st').
Proof.
  intros Ht Hkind Hs st' est alt_mask.
  pose proof (verify_step_unreconciled thr targets st rec t Ht Hs) as Hstep.
  cbv zeta in Hstep. fold st' in Hstep.
  assert (Hj : Verifier.judge thr t rec = true
               ↔ est = None
                 ∨ (∃ m, est = Some m ∧ (thr <= m)%Q)
                 ∨ (∃ m, est = Some m ∧ (m < thr)%Q
                         ∧ (alt_mask = [] ∨ alt_mask = [str "."]
                            ∨ Forall (λ a, a = str ".") alt_mask))).
  { unfold Verifier.judge. rewrite Hkind. fold est alt_mask.
    destruct est as [m|]; [|by split; [left|]].
    destruct (Qltb m thr) eqn:Hlt.
    - apply Qltb_lt in Hlt.
      rewrite orb_true_iff, bool_decide_eq_true, forallb_is_dot.
      rewrite !elem_of_cons, elem_of_nil. split.
      + intros Hok. right. right. exists m. repeat split; [done|]. tauto.
      + intros [|[(m' & [= <-] & Hge)|(m' & [= <-] & _ & Hok)]]; [done| |tauto].
        by apply Qlt_not_le in Hlt.
    - apply Qltb_ge in Hlt. split; [|done]. intros _. right. left. eauto. }
  destruct (Verifier.judge thr t rec).
  - split; [|tauto]. split; [intros _; by apply Hj|tauto].
  - split; [|tauto]. split; [tauto|]. intros Hc%Hj. done.
Qed.

(** C7.  At a target site of kind STR that is not yet reconciled, the
    record makes the site a success exactly when its alternate tuple
    differs from the recorded original tuple and some allele contains
    ['N']; otherwise (in particular for a changed tuple without ['N']) the
    site is not a success and is recorded in [error_sites]. *)
Theorem str_site_judgement `{FloatOfStr} (thr : Q)
    (targets : gmap (string * Z) Verifier.target)
    (st : Verifier.vstate) (rec : record) (t : Verifier.target) :
  targets !! (chrom rec, pos rec) = Some t →
  Verifier.t_kind t = Verifier.STR →
  (chrom rec, pos rec) ∉ Verifier.var_m_sites st →
  let st' := Verifier.verify_step thr targets st rec in
  let alt_mask := alt_tuple (alts rec) in
  ((chrom rec, pos rec) ∈ Verifier.var_m_sites st'
   ↔ alt_mask ≠ Verifier.alt_orig t
     ∧ ∃ a : list ascii, a ∈ alt_mask ∧ "N"%char ∈ a)
  ∧ ((chrom rec, pos rec) ∉ Verifier.var_m_sites st'
     → (chrom rec, pos rec) ∈ Verifier.error_sites st').
Proof.
  intros Ht Hkind Hs st' alt_mask.
  pose proof (verify_step_unreconciled thr targets st rec t Ht Hs) as Hstep.
  cbv zeta in Hstep. fold st' in Hstep.
  assert (Hj : Verifier.judge thr t rec = true
               ↔ alt_mask ≠ Verifier.alt_orig t
                 ∧ ∃ a : list ascii, a ∈ alt_mask ∧ "N"%char ∈ a).
  { unfold Verifier.judge. rewrite Hkind. fold alt_mask.
    rewrite andb_true_iff, bool_decide_eq_true, existsb_exists.
    apply and_iff_compat_l. split.
    - intros (a & Ha & Hn). exists a.
      by rewrite list_elem_of_In, <- (bool_decide_eq_true ("N"%char ∈ a)).
    - intros (a & Ha & Hn). exists a.
      by rewrite <- list_elem_of_In, bool_decide_eq_true. }
  destruct (Verifier.judge thr t rec).
  - split; [|tauto]. split; [intros _; by apply Hj|tauto].
  - split; [|tauto]. split; [tauto|]. intros Hc%Hj. done.
Qed.

Lemma promote_disjoint_remove (S E : gset (string * Z)) (k : string * Z) :
  S ## E → ({[ k ]} ∪ S) ## (E ∖ {[ k ]}).
Proof.
  rewrite !elem_of_disjoint. intros Hd x.
  rewrite elem_of_union, elem_of_difference, elem_of_singleton.
  intros [->|Hx] [Hx' Hne]; [done|]. by apply (Hd x).
Qed.

Lemma promote_disjoint_absent (S E : gset (string * Z)) (k : string * Z) :
  k ∉ E → S ## E → ({[ k ]} ∪ S) ## E.
Proof.
  rewrite !elem_of_disjoint. intros Hk Hd x.
  rewrite elem_of_union, elem_of_singleton.
  intros [->|Hx] Hx'; [done|]. by apply (Hd x).
Qed.

Lemma candidate_disjoint (S E : gset (string * Z)) (k : string * Z) :
  k ∉ S → S ## E → S ## ({[ k ]} ∪ E).
Proof.
  rewrite !elem_of_disjoint. intros Hk Hd x Hx.
  rewrite elem_of_union, elem_of_singleton.
  intros [->|Hx']; [done|]. by apply (Hd x).
Qed.

Section Invariants.
Context `{FloatOfStr}.
Variable thr : Q.
Variable targets : gmap (string * Z) Verifier.target.
Implicit Types (st : Verifier.vstate) (rec : record).

Lemma verify_step_disjoint st rec :
  Verifier.var_m_sites st ## Verifier.error_sites st →
  Verifier.var_m_sites (Verifier.verify_step thr targets st rec)
  ## Verifier.error_sites (Verifier.verify_step thr targets st rec).
Proof.
  intros Hd. unfold Verifier.verify_step.
  destruct (targets !! (chrom rec, pos rec)) as [t|]; [|done].
  case_bool_decide as Hin; [done|].
  destruct (Verifier.judge thr t rec); simpl.
  - case_bool_decide.
    + by apply promote_disjoint_remove.
    + by apply promote_disjoint_absent.
  - rewrite bool_decide_eq_true_2 by done. by apply candidate_disjoint.
Qed.

Lemma verify_step_mono st rec :
  Verifier.var_m_sites st
  ⊆ Verifier.var_m_sites (Verifier.verify_step thr targets st rec).
Proof.
  unfold Verifier.verify_step.
  destruct (targets !! (chrom rec, pos rec)) as [t|]; [|done].
  case_bool_decide as Hin; [done|].
  destruct (Verifier.judge thr t rec); simpl; [|done].
  apply union_subseteq_r.
Qed.

Lemma verify_loop_disjoint recs st :
  Verifier.var_m_sites st ## Verifier.error_sites st →
  Verifier.var_m_sites (Verifier.verify_loop thr targets st recs)
  ## Verifier.error_sites (Verifier.verify_loop thr targets st recs).
Proof.
  revert st. induction recs as [|rec recs IH]; intros st Hd; [done|].
  simpl. by apply IH, verify_step_disjoint.
Qed.

Lemma verify_loop_mono recs st :
  Verifier.var_m_sites st
  ⊆ Verifier.var_m_sites (Verifier.verify_loop thr targets st recs).
Proof.
  revert st. induction recs as [|rec recs IH]; intros st; [done|].
  simpl. etrans; [apply verify_step_mono|apply IH].
Qed.
End Invariants.

(** C8.  Cut the transformed stream anywhere.  After the first part the
    two sets are disjoint; every site that is then in [success_sites] is
    still there after the whole stream and is not in [error_sites] at the
    end, whatever the later records at that site are. *)
Theorem success_error_invariant `{FloatOfStr} (thr : Q)
    (targets : gmap (string * Z) Verifier.target)
    (seen later : list record) :
  let st1 := Verifier.verify_loop thr targets (Verifier.VState ∅ ∅) seen in
  let st2 :=
    Verifier.verify_loop thr targets (Verifier.VState ∅ ∅) (seen ++ later) in
  Verifier.var_m_sites st1 ## Verifier.error_sites st1
  ∧ Verifier.var_m_sites st1 ⊆ Verifier.var_m_sites st2
  ∧ ∀ k, k ∈ Verifier.var_m_sites st1 → k ∉ Verifier.error_sites st2.
Proof.
  intros st1 st2.
  assert (Hst2 : st2 = Verifier.verify_loop thr targets st1 later).
  { unfold st2, st1, Verifier.verify_loop. apply fold_left_app. }
  assert (Hd1 : Verifier.var_m_sites st1 ## Verifier.error_sites st1).
  { apply verify_loop_disjoint. simpl. apply disjoint_empty_l. }
  assert (Hmono : Verifier.var_m_sites st1 ⊆ Verifier.var_m_sites st2).
  { rewrite Hst2. apply verify_loop_mono. }
  assert (Hd2 : Verifier.var_m_sites st2 ## Verifier.error_sites st2).
  { rewrite Hst2. by apply verify_loop_disjoint. }
  repeat split; [done..|].
  intros k Hk He. apply (Hd2 k); [by apply Hmono|done].
Qed.

(** A metadata item is counted as masked only when it is counted as a
    target. *)
Lemma masked_metadata_le (cmdline cmdline_ok reference reference_ok : bool) :
  (Nat.b2n (cmdline && cmdline_ok) + Nat.b2n (reference && reference_ok)
   ≤ Nat.b2n cmdline + Nat.b2n reference)%nat.
Proof. destruct cmdline, cmdline_ok, reference, reference_ok; simpl; lia. Qed.

Lemma demoted_elem_of (E : gset (string * Z)) (kr k : string * Z) :
  k ∈ (if bool_decide (kr ∈ E) then E ∖ {[ kr ]} else E) ↔ k ∈ E ∧ k ≠ kr.
Proof.
  case_bool_decide as Hin.
  - by rewrite elem_of_difference, elem_of_singleton.
  - split; [|by intros [? _]]. intros Hk. split; [done|]. by intros ->.
Qed.

Section ErrorSites.
Context `{FloatOfStr}.
Variable thr : Q.
Variable targets : gmap (string * Z) Verifier.target.

(** After the pass, [var_m_sites] holds target sites only, and
    [error_sites] holds exactly the target sites that occur in the stream
    and are not in [var_m_sites]. *)
Lemma verify_loop_sites (recs : list record) :
  let st := Verifier.verify_loop thr targets (Verifier.VState ∅ ∅) recs in
  (∀ k, k ∈ Verifier.var_m_sites st → is_Some (targets !! k))
  ∧ (∀ k, k ∈ Verifier.error_sites st
          ↔ (k ∉ Verifier.var_m_sites st)
            ∧ is_Some (targets !! k)
            ∧ ∃ rec, rec ∈ recs ∧ (chrom rec, pos rec) = k).
Proof.
  induction recs as [|r recs IH] using rev_ind.
  { simpl. split; [by intros k ?%elem_of_empty|].
    intros k. split; [by intros ?%elem_of_empty|].
    by intros (_ & _ & rec & ?%elem_of_nil & _). }
  unfold Verifier.verify_loop in *. rewrite fold_left_app. simpl.
  set (st := fold_left (Verifier.verify_step thr targets) recs
               (Verifier.VState ∅ ∅)) in *.
  cbv zeta in IH. destruct IH as [IH1 IH2].
  assert (Hseen : ∀ k, (∃ rec, rec ∈ recs ++ [r] ∧ (chrom rec, pos rec) = k)
                       ↔ (∃ rec, rec ∈ recs ∧ (chrom rec, pos rec) = k)
                         ∨ (chrom r, pos r) = k).
  { intros k. split.
    - intros (rec & [Hin|Hin]%elem_of_app & Hk); [left; eauto|].
      apply list_elem_of_singleton in Hin as ->. by right.
    - intros [(rec & Hin & Hk)|Hk].
      + exists rec. split; [apply elem_of_app; by left|done].
      + exists r. split; [apply elem_of_app; right; by apply list_elem_of_singleton|done]. }
  unfold Verifier.verify_step.
  destruct (targets !! (chrom r, pos r)) as [t|] eqn:Ht.
  2:{ split; [done|]. intros k. rewrite IH2, Hseen. split; [tauto|].
      intros (Hs & Hk & [Hr|<-]); [done|]. rewrite Ht in Hk. by destruct Hk. }
  case_bool_decide as Hin.
  { split; [done|]. intros k. rewrite IH2, Hseen. split; [tauto|].
    intros (Hs & Hk & [Hr|<-]); done. }
  destruct (Verifier.judge thr t r); simpl.
  - split.
    + intros k [->%elem_of_singleton|Hk]%elem_of_union; [by rewrite Ht|by apply IH1].
    + intros k. rewrite demoted_elem_of, IH2, Hseen, elem_of_union,
        elem_of_singleton. split.
      * intros [(Hs & Hk & Hr) Hne]. repeat split; [|done|by left].
        by intros [->|?].
      * intros (Hs & Hk & [Hr|<-]); [|by destruct Hs; left].
        repeat split; try done; [by intros ?; apply Hs; right|].
        intros ->. apply Hs. by left.
  - split; [done|]. rewrite bool_decide_eq_true_2 by done.
    intros k. rewrite elem_of_union, elem_of_singleton, IH2, Hseen. split.
    + intros [->|(Hs & Hk & Hr)]; [|tauto].
      repeat split; [done|by rewrite Ht|by right].
    + intros (Hs & Hk & [Hr|<-]); [right|left]; done.
Qed.

(** A verdict [ok] leaves no site in [error_sites]. *)
Lemma all_masked_no_errors (recs : list record) (meta_t meta_m : nat) :
  let st := Verifier.verify_loop thr targets (Verifier.VState ∅ ∅) recs in
  (meta_m ≤ meta_t)%nat →
  (meta_m + size (Verifier.var_m_sites st) = meta_t + size targets)%nat →
  Verifier.error_sites st = ∅.
Proof.
  intros st Hmeta Hsum.
  destruct (verify_loop_sites recs) as [H1 H2]. fold st in H1, H2.
  assert (Hsub : Verifier.var_m_sites st ⊆ dom targets).
  { intros k Hk. by apply elem_of_dom, H1. }
  pose proof (subseteq_size _ _ Hsub) as Hle. rewrite size_dom in Hle.
  assert (Heq : Verifier.var_m_sites st = dom targets).
  { apply set_subseteq_size_eq; [done|]. rewrite size_dom. lia. }
  apply set_eq. intros k. split; [|by intros ?%elem_of_empty].
  intros (Hs & Hk & _)%H2. destruct Hs. rewrite Heq. by apply elem_of_dom.
Qed.
End ErrorSites.

(** C10 (as amended).  For a high-level file the [unmasked_positions]
    field lists exactly the target sites that occur in the transformed
    stream and were not reconciled successfully: it is the placeholder
    ["-"] when there is none, and otherwise their [chromosome:position]
    strings, sorted lexicographically and joined by [";"].  Target sites
    without a record in the transformed stream are not listed.  For a
    low-level file the field is the placeholder. *)
Theorem unmasked_positions_field `{FloatOfStr} (fname : string)
    (origin anony : list record) (anony_lines : list string) (thr : Q)
    (origin_header : list string) (patterns : list Re.pattern) :
  let report :=
    Verifier.verify_pair fname origin anony anony_lines thr origin_header
      patterns in
  match Verifier.infer_level fname with
  | Low => Verifier.unmasked_positions report = "-"
  | High =>
      let targets := Verifier.collect_targets origin thr patterns in
      let st :=
        Verifier.verify_loop thr targets (Verifier.VState ∅ ∅) anony in
      ∃ listed : gset (string * Z),
        (∀ k, k ∈ listed
              ↔ is_Some (targets !! k)
                ∧ (∃ rec, rec ∈ anony ∧ (chrom rec, pos rec) = k)
                ∧ k ∉ Verifier.var_m_sites st)
        ∧ Verifier.unmasked_positions report
          = (if bool_decide (listed = ∅) then "-"
             else String.concat ";" (Verifier.sorted_sites listed))
        ∧ StronglySorted String.le (Verifier.sorted_sites listed)
        ∧ Verifier.sorted_sites listed
          ≡ₚ Verifier.site_string <$> elements listed
  end.
Proof.
  intros report. subst report. unfold Verifier.verify_pair.
  destruct (Verifier.infer_level fname).
  - cbn [Verifier.unmasked_positions Verifier.error_sites].
    rewrite (bool_decide_eq_true_2 (∅ = ∅)) by done.
    by rewrite andb_false_r.
  - cbv beta iota zeta. cbn [Verifier.unmasked_positions].
    set (targets := Verifier.collect_targets origin thr patterns).
    set (st := Verifier.verify_loop thr targets (Verifier.VState ∅ ∅) anony).
    exists (Verifier.error_sites st).
    destruct (verify_loop_sites thr targets anony) as [_ Hsites].
    fold st in Hsites.
    split; [intros k; rewrite Hsites; tauto|].
    split; [|split; [apply StronglySorted_merge_sort; apply _
                    |apply merge_sort_Permutation]].
    case_bool_decide as Hempty; [by rewrite andb_false_r|].
    rewrite andb_true_r.
    match goal with
    | |- context [(?m =? ?t)%nat] => destruct (m =? t)%nat eqn:Hok
    end; [|done].
    exfalso. apply Hempty. apply Nat.eqb_eq in Hok.
    eapply all_masked_no_errors; [|exact Hok].
    apply masked_metadata_le.
Qed.

(** C10 (as stated) fails: a target site with no record in the transformed
    stream is not reconciled, yet the field is the placeholder and not
    ["chr1:100"]. *)
Lemma unmasked_positions_omits_absent_sites :
  let r :=
    Record "chr1" 100 (Some [str "AC"])
      {[ "MAF" := VScalar (SFloat 0.005) ]} in
  let patterns := Verifier.build_str_patterns 1 6 7 in
  let targets := @Verifier.collect_targets plain_decimal [r] 0.01 patterns in
  let st :=
    @Verifier.verify_loop plain_decimal 0.01 targets (Verifier.VState ∅ ∅) [] in
  Verifier.unmasked_positions
    (@Verifier.verify_pair plain_decimal "high_0.01_anony_x.vcf.gz"
       [r] [] [] 0.01 [] patterns) = "-"
  ∧ Verifier.spec_unmasked_positions targets st = "chr1:100"
  ∧ Verifier.unmasked_positions
      (@Verifier.verify_pair plain_decimal "high_0.01_anony_x.vcf.gz"
         [r] [] [] 0.01 [] patterns)
    ≠ Verifier.spec_unmasked_positions targets st.
Proof.
  cbv zeta. split; [vm_compute; reflexivity|].
  split; [vm_compute; reflexivity|]. vm_compute. discriminate.
Qed.

Lemma maf_site_judgement_witness :
  let thr := 0.01%Q in
  let targets : gmap (string * Z) Verifier.target :=
    {[ ("chr1", 100) := Verifier.Target Verifier.MAF [str "AC"] ]} in
  let st := Verifier.VState ∅ ∅ in
  let rec :=
    Record "chr1" 100 (Some [str "AC"])
      {[ "MAF" := VScalar (SFloat 0.004) ]} in
  let st' := @Verifier.verify_step plain_decimal thr targets st rec in
  let est := @Verifier.site_maf_from_info plain_decimal (info rec) in
  let alt_mask := alt_tuple (alts rec) in
  ((chrom rec, pos rec) ∈ Verifier.var_m_sites st'
   ↔ est = None
     ∨ (∃ m, est = Some m ∧ (thr <= m)%Q)
     ∨ (∃ m, est = Some m ∧ (m < thr)%Q
             ∧ (alt_mask = [] ∨ alt_mask = [str "."]
                ∨ Forall (λ a, a = str ".") alt_mask)))
  ∧ ((chrom rec, pos rec) ∉ Verifier.var_m_sites st'
     → (chrom rec, pos rec) ∈ Verifier.error_sites st').
Proof.
  intros thr targets st rec.
  apply (@maf_site_judgement plain_decimal thr targets st rec
           (Verifier.Target Verifier.MAF [str "AC"])).
  - vm_compute. reflexivity.
  - reflexivity.
  - apply not_elem_of_empty.
Defined.

Lemma str_site_judgement_witness :
  let thr := 0.01%Q in
  let targets : gmap (string * Z) Verifier.target :=
    {[ ("chr1", 100) := Verifier.Target Verifier.STR [str "AAAAAAAT"] ]} in
  let st := Verifier.VState ∅ ∅ in
  let rec := Record "chr1" 100 (Some [str "T"]) ∅ in
  let st' := @Verifier.verify_step plain_decimal thr targets st rec in
  let alt_mask := alt_tuple (alts rec) in
  ((chrom rec, pos rec) ∈ Verifier.var_m_sites st'
   ↔ alt_mask ≠ Verifier.alt_orig (Verifier.Target Verifier.STR [str "AAAAAAAT"])
     ∧ ∃ a : list ascii, a ∈ alt_mask ∧ "N"%char ∈ a)
  ∧ ((chrom rec, pos rec) ∉ Verifier.var_m_sites st'
     → (chrom rec, pos rec) ∈ Verifier.error_sites st').
Proof.
  intros thr targets st rec.
  apply (@str_site_judgement plain_decimal thr targets st rec
           (Verifier.Target Verifier.STR [str "AAAAAAAT"])).
  - vm_compute. reflexivity.
  - reflexivity.
  - apply not_elem_of_empty.
Defined.

(* ===================================================================== *)
(** * The per-record transformation                                        *)
(* ===================================================================== *)

(** C9.  A record without alternates is not passed through at level high.
    pysam hands out the ALT column [.] as [rec.alts = None]; the pass-through
    test [rec.alts and all(...)] is false for it, so at level high the
    record skips the STR step and reaches the MAF step: the estimator is
    consulted, and what it raises ends the run.  With [AF = ("abc",)] the
    anonymizer raises [TypeError] where the record should be written
    unchanged.  The same annotations on a record whose alternates are
    [(".",)] pass through, level low returns the record, and the verifier's
    [collect_targets], whose test is [not rec.alts or all(...)], skips the
    record. *)
Theorem absent_alts_not_passed_through `{FloatOfStr} (thr : Q)
    (min_motif max_motif min_repeat : nat) (c : string) (p : Z)
    (i : gmap string value) :
  Anonymizer.anonymize_record High thr min_motif max_motif min_repeat
    (Record c p None i)
  = (maf ← Anonymizer.site_maf_from_info i;
     Ok (match maf with
         | Some maf =>
             if Qltb maf thr then Record c p (Some [str "."]) i
             else Record c p None i
         | None => Record c p None i
         end))
  ∧ let rec := Record "chr1" 100 None {[ "AF" := VSeq [SStr "abc"] ]} in
    forallb is_dot (alt_tuple (alts rec)) = true
    ∧ @Anonymizer.anonymize_record plain_decimal High 0.01 1 6 7 rec
      = Raise TypeError
    ∧ @Anonymizer.anonymize_record plain_decimal Low 0.01 1 6 7 rec = Ok rec
    ∧ @Anonymizer.anonymize_record plain_decimal High 0.01 1 6 7
        (set_alts rec (Some [str "."]))
      = Ok (set_alts rec (Some [str "."]))
    ∧ @Verifier.collect_step plain_decimal 0.01
        (Verifier.build_str_patterns 1 6 7) ∅ rec
      = ∅.
Proof.
  split.
  - unfold Anonymizer.anonymize_record, Anonymizer.mask_record. simpl.
    destruct (Anonymizer.site_maf_from_info i) as [[maf|]|e]; simpl; try done.
    by destruct (Qltb maf thr).
  - cbv zeta. repeat split; vm_compute; reflexivity.
Qed.

(* ===================================================================== *)
(** * More on the MAF estimators                                         *)
(* ===================================================================== *)

Lemma py_max_spec (a b : Q) : (a <= py_max a b)%Q ∧ (b <= py_max a b)%Q.
Proof.
  unfold py_max. destruct (Qltb a b) eqn:Hlt.
  - apply Qltb_lt in Hlt. split; lra.
  - apply Qltb_ge in Hlt. split; lra.
Qed.

Lemma py_min_le_init (l : list Q) (x : Q) : (py_min x l <= x)%Q.
Proof.
  unfold py_min. revert x. induction l as [|y l IH]; intros x; simpl; [lra|].
  destruct (Qltb y x) eqn:Hlt.
  - apply Qltb_lt in Hlt. specialize (IH y). lra.
  - apply IH.
Qed.

Lemma py_min_lower_bound (l : list Q) (x y : Q) :
  y ∈ l → (py_min x l <= y)%Q.
Proof.
  unfold py_min. revert x. induction l as [|z l IH]; intros x Hy.
  { by apply elem_of_nil in Hy. }
  simpl. apply elem_of_cons in Hy as [->|Hy]; [|by apply IH].
  pose proof (py_min_le_init l (if Qltb z x then z else x)) as Hle.
  unfold py_min in Hle.
  destruct (Qltb z x) eqn:Hlt; [done|]. apply Qltb_ge in Hlt. lra.
Qed.

Lemma py_min_attained (l : list Q) (x : Q) : py_min x l ∈ x :: l.
Proof.
  unfold py_min. revert x. induction l as [|z l IH]; intros x; simpl.
  { left. }
  specialize (IH (if Qltb z x then z else x)).
  apply elem_of_cons in IH as [Heq|Hin].
  - rewrite Heq. destruct (Qltb z x); [right; left|left].
  - right. by right.
Qed.

Lemma fold_sum_ge (l : list Q) (acc : Q) :
  (∀ a, a ∈ l → (0 <= a)%Q) → (acc <= fold_left Qplus l acc)%Q.
Proof.
  revert acc. induction l as [|x l IH]; intros acc Hl; simpl; [lra|].
  assert (0 <= x)%Q by (apply Hl; left).
  specialize (IH (acc + x)%Q). 
  assert (acc + x <= fold_left Qplus l (acc + x))%Q.
  { apply IH. intros a Ha. apply Hl. by right. }
  lra.
Qed.

(** The reference-and-minimum rule never yields more than one half. *)
Lemma minor_frequency_le_half (afs : list Q) :
  afs ≠ [] → (py_min (py_max 0 (1 - py_sum afs)) afs <= 1 # 2)%Q.
Proof.
  intros Hne.
  destruct (existsb (λ a, Qle_bool a (1 # 2)) afs) eqn:Hex.
  - apply existsb_exists in Hex as (a & Ha%list_elem_of_In & Hle%Qle_bool_iff).
    pose proof (py_min_lower_bound afs (py_max 0 (1 - py_sum afs)) a Ha). lra.
  - assert (Hall : ∀ a, a ∈ afs → ¬ (a <= 1 # 2)%Q).
    { intros a Ha Hle. apply not_true_iff_false in Hex. apply Hex.
      apply existsb_exists. exists a.
      split; [by apply list_elem_of_In|by apply Qle_bool_iff]. }
    pose proof (py_min_le_init afs (py_max 0 (1 - py_sum afs))) as Hle.
    assert (Hsum : (1 # 2 < py_sum afs)%Q).
    { destruct afs as [|a afs]; [done|]. unfold py_sum. simpl.
      assert (~ a <= 1 # 2)%Q by (apply Hall; left).
      assert (0 + a <= fold_left Qplus afs (0 + a))%Q; [|lra].
      apply fold_sum_ge. intros b Hb.
      assert (~ b <= 1 # 2)%Q by (apply Hall; by right). lra. }
    unfold py_max in *. destruct (Qltb 0 (1 - py_sum afs)); lra.
Qed.

Lemma py_sum_dyn_ok (l : list (option Q)) (acc s : Q) :
  py_sum_dyn acc l = Ok s → l = Some <$> omap id l.
Proof.
  revert acc. induction l as [|[x|] l IH]; intros acc; simpl; [done| |done].
  intros Hs. f_equal. by eapply IH.
Qed.

Lemma py_sum_dyn_raise (l : list (option Q)) (acc : Q) (e : exn) :
  py_sum_dyn acc l = Raise e → e = TypeError ∧ None ∈ l.
Proof.
  revert acc. induction l as [|[x|] l IH]; intros acc; simpl; [done| |].
  - intros [-> Hin]%IH. split; [done|by right].
  - intros [= <-]. split; [done|left].
Qed.

Lemma py_sum_dyn_None (l : list (option Q)) (acc : Q) :
  None ∈ l → py_sum_dyn acc l = Raise TypeError.
Proof.
  revert acc. induction l as [|[x|] l IH]; intros acc Hin; simpl.
  - by apply elem_of_nil in Hin.
  - apply IH. by apply elem_of_cons in Hin as [?|?].
  - done.
Qed.

Lemma omap_id_Some {A} (l : list A) : omap id (Some <$> l) = l.
Proof. induction l as [|x l IH]; [done|]. cbn [fmap list_fmap omap list_omap id]. by f_equal. Qed.

Section EstimatorMore.
Context `{FloatOfStr}.

Lemma present_lookup_None (info : gmap string value) (key : string) :
  info !! key = None → Verifier.present info key = None.
Proof. unfold Verifier.present. by intros ->. Qed.

Lemma parsed_of_converted (l : list scalar) :
  Verifier.parsed l
  = omap id ((λ x, Anonymizer._to_float (VScalar x)) <$>
               filter (λ x, is_None (VScalar x) = false) l).
Proof. reflexivity. Qed.

(** An estimate the anonymizer returns is the verifier's estimate. *)
Lemma estimate_transfers (info : gmap string value) (m : Q) :
  Anonymizer.site_maf_from_info info = Ok (Some m) →
  Verifier.site_maf_from_info info = Some m.
Proof.
  unfold Anonymizer.site_maf_from_info, Verifier.site_maf_from_info,
    Verifier.present.
  destruct (info !! "MAF") as [v|] eqn:Hmaf.
  - destruct v as [x|[|x xs]]; simpl; [|done|].
    + intros [= Hx]. destruct x; try done; by rewrite <- to_float_agree.
    + intros [= Hx]. by rewrite <- to_float_agree.
  - destruct (info !! "AF") as [vals|] eqn:Hvals.
    2:{ rewrite ac_an_agree. by intros [= ->]. }
    destruct (is_None vals) eqn:Hv.
    { destruct vals as [[]|]; try discriminate. simpl.
      rewrite ac_an_agree. by intros [= ->]. }
    rewrite parsed_of_converted.
    set (l := (λ x, Anonymizer._to_float (VScalar x)) <$> _).
    destruct l as [|y l'] eqn:Hl.
    { rewrite ac_an_agree. by intros [= ->]. }
    rewrite <- Hl.
    destruct (py_sum_dyn 0 l) as [s|e] eqn:Hs; [|done].
    pose proof (py_sum_dyn_ok _ _ _ Hs) as Hall.
    rewrite Hall, py_sum_dyn_floats in Hs. injection Hs as <-.
    cbn [mbind result_bind]. rewrite Hall.
    destruct (omap id l) as [|q qs] eqn:Hq.
    { rewrite Hl in Hall. discriminate Hall. }
    rewrite py_min_dyn_floats. cbn [mbind result_bind fmap list_fmap].
    change (Some q :: (Some <$> qs)) with (Some <$> (q :: qs)).
    rewrite omap_id_Some. by intros [= <-].
Qed.

Lemma ac_an_shape (info : gmap string value) (m : Q) :
  Verifier.maf_from_ac_an info = Some m →
  ∃ afs, afs ≠ [] ∧ m = py_min (py_max 0 (1 - py_sum afs)) afs.
Proof.
  unfold Verifier.maf_from_ac_an.
  destruct (Verifier.present info "AC") as [vals|]; [|done].
  destruct (Verifier.present info "AN") as [an_raw|]; [|done].
  destruct (Verifier._to_float an_raw) as [an|]; [|done].
  destruct (Qeq_bool an 0 || Qle_bool an 0); [done|].
  destruct (Verifier.parsed (as_list vals)) as [|q qs]; [done|].
  intros [= <-]. exists ((λ a, a / an)%Q <$> (q :: qs)). by split.
Qed.

(** Without a usable [MAF] entry the verifier's estimate comes from the
    reference-and-minimum rule over a non-empty list of frequencies. *)
Lemma fallback_shape (info : gmap string value) (m : Q) :
  Verifier.present info "MAF" = None →
  Verifier.site_maf_from_info info = Some m →
  ∃ afs, afs ≠ [] ∧ m = py_min (py_max 0 (1 - py_sum afs)) afs.
Proof.
  intros Hmaf. unfold Verifier.site_maf_from_info. rewrite Hmaf.
  destruct (Verifier.present info "AF") as [vals|]; [|apply ac_an_shape].
  destruct (Verifier.parsed (as_list vals)) as [|q qs]; [apply ac_an_shape|].
  intros [= <-]. exists (q :: qs). by split.
Qed.

Lemma anonymizer_raise_cases (info : gmap string value) (e : exn) :
  Anonymizer.site_maf_from_info info = Raise e ↔
    (info !! "MAF" = Some (VSeq []) ∧ e = IndexError)
    ∨ (info !! "MAF" = None ∧ e = TypeError
       ∧ ∃ vals x, info !! "AF" = Some vals ∧ x ∈ as_list vals ∧ x ≠ SNone
                   ∧ Anonymizer._to_float (VScalar x) = None).
Proof.
  unfold Anonymizer.site_maf_from_info.
  destruct (info !! "MAF") as [v|] eqn:Hmaf.
  { destruct v as [x|[|x xs]]; simpl.
    - split; [done|]. by intros [[[=] _]|[[=] _]].
    - split; [intros [= <-]; by left|]. by intros [[_ ->]|[[=] _]].
    - split; [done|]. by intros [[[=] _]|[[=] _]]. }
  destruct (info !! "AF") as [vals|] eqn:Hvals.
  2:{ rewrite ac_an_agree. split; [done|].
      by intros [[[=] _]|(_ & _ & ? & ? & [=] & _)]. }
  set (l := (λ x, Anonymizer._to_float (VScalar x)) <$> _).
  assert (Hnone : None ∈ l ↔
            ∃ x, x ∈ as_list vals ∧ x ≠ SNone
                 ∧ Anonymizer._to_float (VScalar x) = None).
  { unfold l. rewrite list_elem_of_fmap. split.
    - intros (x & Hx & [Hin Hn]%list_elem_of_filter). exists x.
      split; [done|]. split; [by intros ->|done].
    - intros (x & Hin & Hn & Hx). exists x. split; [done|].
      apply list_elem_of_filter. split; [by destruct x|done]. }
  split.
  - intros Hr. right. split; [done|].
    destruct l as [|y l'] eqn:Hl.
    { rewrite ac_an_agree in Hr. done. }
    rewrite <- Hl in Hr, Hnone.
    destruct (py_sum_dyn 0 l) as [s|e'] eqn:Hs.
    + pose proof (py_sum_dyn_ok _ _ _ Hs) as Hall.
      cbn [mbind result_bind] in Hr.
      rewrite Hall, py_min_dyn_floats in Hr. done.
    + cbn [mbind result_bind] in Hr. injection Hr as ->.
      apply py_sum_dyn_raise in Hs as [-> Hin]. split; [done|].
      apply Hnone in Hin as (x & ?). exists vals, x. by split.
  - intros [[[=] _]|(_ & -> & vals' & x & [= <-] & Hx)].
    assert (Hin : None ∈ l) by (apply Hnone; eauto).
    destruct l as [|y l'] eqn:Hl; [by apply elem_of_nil in Hin|].
    rewrite <- Hl in *. by rewrite (py_sum_dyn_None l 0 Hin).
Qed.
End EstimatorMore.

(** X1.  Whenever the anonymizer's estimator returns an estimate, the
    verifier's estimator returns the same estimate on that annotation map. *)
Theorem anonymizer_estimate_is_verifiers `{FloatOfStr}
    (info : gmap string value) (m : Q) :
  Anonymizer.site_maf_from_info info = Ok (Some m) →
  Verifier.site_maf_from_info info = Some m.
Proof. apply estimate_transfers. Qed.

Lemma anonymizer_estimate_is_verifiers_witness :
  @Verifier.site_maf_from_info plain_decimal
    (<[ "AC" := VSeq [SInt 2; SStr "x"] ]> {[ "AN" := VScalar (SInt 100) ]})
  = Some (2 / 100)%Q.
Proof.
  apply (@anonymizer_estimate_is_verifiers plain_decimal). vm_compute.
  reflexivity.
Defined.

(** X2.  The anonymizer's estimator raises in exactly two situations:
    [IndexError] when [MAF] is an empty tuple, and [TypeError] when [MAF]
    is absent and some [AF] entry other than [None] does not convert. *)
Theorem anonymizer_estimator_raises_iff `{FloatOfStr}
    (info : gmap string value) (e : exn) :
  Anonymizer.site_maf_from_info info = Raise e ↔
    (info !! "MAF" = Some (VSeq []) ∧ e = IndexError)
    ∨ (info !! "MAF" = None ∧ e = TypeError
       ∧ ∃ vals x, info !! "AF" = Some vals ∧ x ∈ as_list vals ∧ x ≠ SNone
                   ∧ Anonymizer._to_float (VScalar x) = None).
Proof. apply anonymizer_raise_cases. Qed.

(** X3.  An estimate that does not come from a [MAF] entry never exceeds one
    half, in either program: when the [MAF] key is absent, or present with
    the value [None] (where the verifier goes on to [AF] and [AC]/[AN] and
    the anonymizer returns no estimate), whatever either estimator returns
    is at most [1/2]. *)
Theorem fallback_estimate_le_half `{FloatOfStr}
    (info : gmap string value) (m : Q) :
  info !! "MAF" = None ∨ info !! "MAF" = Some (VScalar SNone) →
  Anonymizer.site_maf_from_info info = Ok (Some m)
  ∨ Verifier.site_maf_from_info info = Some m →
  (m <= 1 # 2)%Q.
Proof.
  intros Hmaf Hest.
  assert (Hv : Verifier.site_maf_from_info info = Some m).
  { destruct Hest as [Ha|Hv]; [by apply estimate_transfers|done]. }
  assert (Hp : Verifier.present info "MAF" = None).
  { unfold Verifier.present. by destruct Hmaf as [->| ->]. }
  destruct (fallback_shape info m Hp Hv) as (afs & Hne & ->).
  by apply minor_frequency_le_half.
Qed.

Lemma fallback_estimate_le_half_witness :
  @Verifier.site_maf_from_info plain_decimal
    (<[ "MAF" := VScalar SNone ]> {[ "AF" := VSeq [SFloat 0.3; SFloat 0.2] ]})
  = Some 0.2%Q
  ∧ (0.2 <= 1 # 2)%Q.
Proof.
  split; [vm_compute; reflexivity|].
  apply (@fallback_estimate_le_half plain_decimal
           (<[ "MAF" := VScalar SNone ]>
              {[ "AF" := VSeq [SFloat 0.3; SFloat 0.2] ]}) 0.2%Q).
  - right. vm_compute. reflexivity.
  - right. vm_compute. reflexivity.
Defined.

(** X4.  With no [MAF] entry and at least one [AF] value that converts, the
    verifier's estimate is the least element of the list made of the
    reference frequency [max(0, 1 - sum)] and the converted [AF] values. *)
Theorem af_estimate_is_minimum `{FloatOfStr}
    (info : gmap string value) (vals : value) :
  info !! "MAF" = None →
  info !! "AF" = Some vals →
  Verifier.parsed (as_list vals) ≠ [] →
  let afs := Verifier.parsed (as_list vals) in
  let ref := py_max 0 (1 - py_sum afs)%Q in
  ∃ m, Verifier.site_maf_from_info info = Some m
       ∧ m ∈ ref :: afs
       ∧ ∀ x, x ∈ ref :: afs → (m <= x)%Q.
Proof.
  intros Hmaf Haf Hne afs ref.
  exists (py_min ref afs). split; [|split].
  - unfold Verifier.site_maf_from_info, Verifier.present.
    rewrite Hmaf, Haf.
    destruct (is_None vals) eqn:Hv.
    { destruct vals as [[]|]; try discriminate. by destruct Hne. }
    subst ref afs. by destruct (Verifier.parsed (as_list vals)).
  - apply py_min_attained.
  - intros x [->|Hx]%elem_of_cons.
    + apply py_min_le_init.
    + by apply py_min_lower_bound.
Qed.

Lemma af_estimate_is_minimum_witness :
  let info : gmap string value :=
    {[ "AF" := VSeq [SFloat 0.3; SNone; SStr "abc"; SFloat 0.2] ]} in
  let afs := @Verifier.parsed plain_decimal
               [SFloat 0.3; SNone; SStr "abc"; SFloat 0.2] in
  let ref := py_max 0 (1 - py_sum afs)%Q in
  ∃ m, @Verifier.site_maf_from_info plain_decimal info = Some m
       ∧ m ∈ ref :: afs
       ∧ ∀ x, x ∈ ref :: afs → (m <= x)%Q.
Proof.
  intros info.
  apply (@af_estimate_is_minimum plain_decimal info
           (VSeq [SFloat 0.3; SNone; SStr "abc"; SFloat 0.2]));
    [reflexivity | reflexivity | vm_compute; discriminate].
Defined.

(** X5.  When neither [MAF] nor [AF] is present, both estimators return no
    estimate if [AC] or [AN] is missing, or [AN] does not convert, or [AN]
    converts to a number that is not positive; no division takes place. *)
Theorem no_estimate_without_total `{FloatOfStr} (info : gmap string value) :
  info !! "MAF" = None →
  info !! "AF" = None →
  info !! "AC" = None
  ∨ info !! "AN" = None
  ∨ (∃ v, info !! "AN" = Some v
          ∧ (Verifier._to_float v = None
             ∨ ∃ an, Verifier._to_float v = Some an ∧ (an <= 0)%Q)) →
  Anonymizer.site_maf_from_info info = Ok None
  ∧ Verifier.site_maf_from_info info = None.
Proof.
  intros Hmaf Haf Han.
  assert (Hv : Verifier.maf_from_ac_an info = None).
  { unfold Verifier.maf_from_ac_an, Verifier.present.
    destruct Han as [->|[->|(v & -> & Hv)]]; [done|by destruct (info !! "AC") as [[[]|]|]|].
    destruct (info !! "AC") as [vals|]; [|done].
    destruct (is_None vals); [done|]. destruct (is_None v); [done|].
    destruct Hv as [->|(an & -> & Hle)]; [done|].
    apply Qle_bool_iff in Hle. rewrite Hle. by rewrite orb_true_r. }
  unfold Anonymizer.site_maf_from_info, Verifier.site_maf_from_info,
    Verifier.present.
  rewrite Hmaf, Haf, ac_an_agree. by rewrite Hv.
Qed.

Lemma no_estimate_without_total_witness :
  @Anonymizer.site_maf_from_info plain_decimal
    (<[ "AC" := VSeq [SInt 2] ]> {[ "AN" := VScalar (SInt 0) ]}) = Ok None
  ∧ @Verifier.site_maf_from_info plain_decimal
      (<[ "AC" := VSeq [SInt 2] ]> {[ "AN" := VScalar (SInt 0) ]}) = None.
Proof.
  apply (@no_estimate_without_total plain_decimal);
    [reflexivity | reflexivity |].
  right. right. exists (VScalar (SInt 0)). split; [reflexivity|].
  right. exists 0%Q. split; [reflexivity|]. vm_compute. discriminate.
Defined.

(* ===================================================================== *)
(** * More on masking and the record transformation                      *)
(* ===================================================================== *)

Section MaskMore.
Local Open Scope nat_scope.
Implicit Types (motif s t : list ascii) (c n fuel : nat).

Lemma sub_upto_no_run fuel motif n repl s :
  Re.first_run motif n s = None → Re.sub_upto fuel motif n repl s = Ok s.
Proof.
  revert fuel. induction s as [|ch rest IH]; intros fuel; [by destruct fuel|].
  destruct fuel as [|fuel]; [done|]. cbn [Re.first_run Re.sub_upto].
  destruct ((n <=? Re.copies motif (ch :: rest))
            && (0 <? Re.copies motif (ch :: rest))); [done|].
  destruct (Re.first_run motif n rest) as [[a b]|]; [done|].
  intros _. by rewrite IH.
Qed.

Lemma mask_str_ok motif seq n :
  motif ≠ [] →
  ∃ out, Anonymizer.mask_str seq motif n = Ok out ∧ length out = length seq.
Proof.
  intros Hm. unfold Anonymizer.mask_str.
  destruct (length motif =? 1).
  - destruct (sub_upto_frame motif n
                (λ m, Ok (replicate (length m) "N"%char)) Hm) with
      (fuel := length seq) (s := seq) as (out & Hout & Hl & _); [|done|by eauto].
    intros seg. eexists. split; [done|]. by rewrite length_replicate.
  - destruct motif as [|x motif]; [done|].
    destruct (sub_upto_frame (x :: motif) n (Anonymizer.repl (x :: motif)) Hm
                (λ seg, repl_ok (x :: motif) seg Hm) (length seq) seq)
      as (out & Hout & Hl & _); [done|by eauto].
Qed.

Lemma mask_str_length motif seq n out :
  Anonymizer.mask_str seq motif n = Ok out → length out = length seq.
Proof.
  destruct motif as [|x motif]; [done|]. intros Hout.
  destruct (mask_str_ok (x :: motif) seq n) as (out' & Hout' & Hl); [done|].
  congruence.
Qed.

(** Where the motif has a qualifying run, the result of [mask_str] holds
    an ['N'] inside the first match, which the input does not. *)
Lemma mask_str_marks motif seq n a b :
  motif ≠ [] → forallb Re.is_ACGT motif = true →
  Re.first_run motif n seq = Some (a, b) →
  ∃ out, Anonymizer.mask_str seq motif n = Ok out
         ∧ length out = length seq
         ∧ "N"%char ∈ out
         ∧ out ≠ seq.
Proof.
  intros Hm Hacgt Hfr.
  destruct (first_run_spec _ _ _ _ _ Hm Hfr) as (c & Hnc & Hc & -> & Hrun).
  assert (Hmask : ∃ out r,
    Anonymizer.mask_str seq motif n = Ok out ∧ length out = length seq
    ∧ take (c * length motif) (drop a out) = r ∧ "N"%char ∈ r).
  { unfold Anonymizer.mask_str. destruct (length motif =? 1) eqn:H1.
    - assert (Hrepl : ∀ seg : list ascii, ∃ r,
                (λ m, Ok (replicate (length m) "N"%char)) seg = Ok r
                ∧ length r = length seg).
      { intros seg. eexists. split; [done|]. by rewrite length_replicate. }
      destruct (sub_first_run motif n _ Hm Hrepl seq a _ Hfr)
        as (r & out & Hr & Hout & Hl & _ & Htake).
      replace (a + c * length motif - a) with (c * length motif) in Hr, Htake
        by lia.
      exists out, r. repeat split; try done. injection Hr as <-.
      rewrite Hrun, length_rep.
      destruct (c * length motif) eqn:Hz; [destruct motif; [done|simpl in Hz; nia]|].
      simpl. left.
    - destruct motif as [|x motif']; [done|].
      destruct (sub_first_run (x :: motif') n
                  (Anonymizer.repl (x :: motif')) Hm
                  (λ seg, repl_ok (x :: motif') seg Hm) seq a _ Hfr)
        as (r & out & Hr & Hout & Hl & _ & Htake).
      replace (a + c * length (x :: motif') - a)
        with (c * length (x :: motif')) in Hr, Htake by lia.
      exists out, r. repeat split; try done.
      rewrite Hrun, repl_rep in Hr by done. injection Hr as <-.
      destruct c as [|c]; [lia|]. destruct motif' as [|y motif'']; [done|].
      simpl. right. left. }
  destruct Hmask as (out & r & Hout & Hl & Htake & HN).
  exists out. repeat split; try done.
  - rewrite <- Htake in HN. by apply subseteq_take, subseteq_drop in HN.
  - intros ->. rewrite Hrun in Htake. subst r. by eapply acgt_no_N.
Qed.
End MaskMore.

Section DetectMore.
Local Open Scope nat_scope.

Lemma match_here_shape p t u :
  Re.match_here p t = Some u →
  length u = Re.pat_k p ∧ forallb Re.is_ACGT u = true.
Proof.
  unfold Re.match_here.
  destruct (bool_decide (length (take (Re.pat_k p) t) = Re.pat_k p)) eqn:Hl;
    [|done].
  apply bool_decide_eq_true in Hl.
  destruct (forallb Re.is_ACGT (take (Re.pat_k p) t)) eqn:Ha; [|done]. simpl.
  destruct (Re.pat_min_repeat p).
  - destruct (Re.starts_with _ _); [|done]. by intros [= <-].
  - destruct (take (Re.pat_k p) t) eqn:Hu; [by intros [= <-]|].
    destruct (_ <=? _); [|done]. by intros [= <-].
Qed.

Lemma detect_motif min_motif max_motif n s u :
  Anonymizer.detect (Anonymizer.build_str_patterns min_motif max_motif n) s
  = Some u →
  min_motif ≤ length u ∧ forallb Re.is_ACGT u = true
  ∧ ∃ i, Re.match_here (Re.Pattern (length u) n) (drop i s) = Some u.
Proof.
  intros (k & Hk & Hs & _)%detect_first.
  apply search_sound in Hs as [i Hi].
  destruct (match_here_shape _ _ _ Hi) as [Hlen Hacgt]. simpl in Hlen.
  subst k. split; [lia|]. split; [done|]. by exists i.
Qed.

(** A detected motif has a qualifying run for the masking pattern. *)
Lemma detect_run min_motif max_motif n s u :
  1 ≤ min_motif → 1 ≤ n →
  Anonymizer.detect (Anonymizer.build_str_patterns min_motif max_motif n) s
  = Some u →
  u ≠ [] ∧ forallb Re.is_ACGT u = true
  ∧ ∃ a b, Re.first_run u n s = Some (a, b).
Proof.
  intros Hmin Hn (Hlen & Hacgt & i & Hi)%detect_motif.
  assert (Hu : u ≠ []) by (destruct u; [simpl in Hlen; lia|done]).
  split; [done|]. split; [done|].
  destruct (match_here_sound (length u) n _ _ ltac:(lia) Hn Hi)
    as (_ & c & t' & Hc & Hrun).
  destruct (first_run_exists u n (take i s) c t' Hu Hc) as (a & b & Hfr);
    [lia|].
  rewrite <- Hrun, take_drop in Hfr. eauto.
Qed.

Lemma mask_alt_detected min_motif max_motif n alt u :
  1 ≤ min_motif → 1 ≤ n →
  Anonymizer.detect (Anonymizer.build_str_patterns min_motif max_motif n) alt
  = Some u →
  ∃ out, Anonymizer.mask_alt
           (Anonymizer.build_str_patterns min_motif max_motif n) n alt
         = Ok (out, true)
         ∧ length out = length alt ∧ "N"%char ∈ out ∧ out ≠ alt.
Proof.
  intros Hmin Hn Hdet.
  destruct (detect_run _ _ _ _ _ Hmin Hn Hdet) as (Hu & Hacgt & a & b & Hfr).
  destruct (mask_str_marks u alt n a b Hu Hacgt Hfr)
    as (out & Hout & Hl & HN & Hne).
  exists out. unfold Anonymizer.mask_alt. rewrite Hdet, Hout.
  cbn [mbind result_bind]. by rewrite bool_decide_eq_true_2.
Qed.
End DetectMore.

(** X6.  For a non-empty motif over [{A,C,G,T}], [mask_str] returns its
    input unchanged exactly when the motif has no qualifying run in it;
    otherwise the result differs from the input. *)
Theorem mask_str_identity_iff (seq motif : list ascii) (min_repeat : nat) :
  motif ≠ [] →
  forallb Re.is_ACGT motif = true →
  Anonymizer.mask_str seq motif min_repeat = Ok seq
  ↔ Re.first_run motif min_repeat seq = None.
Proof.
  intros Hm Hacgt. split.
  - intros Hid. destruct (Re.first_run motif min_repeat seq) as [[a b]|] eqn:Hfr;
      [|done].
    destruct (mask_str_marks motif seq min_repeat a b Hm Hacgt Hfr)
      as (out & Hout & _ & _ & Hne).
    congruence.
  - intros Hfr. unfold Anonymizer.mask_str, Re.sub.
    destruct (length motif =? 1)%nat; [by apply sub_upto_no_run|].
    destruct motif; [done|]. by apply sub_upto_no_run.
Qed.

Lemma mask_str_identity_iff_witness :
  Anonymizer.mask_str (str "ACACACGT") (str "AC") 7 = Ok (str "ACACACGT")
  ↔ Re.first_run (str "AC") 7 (str "ACACACGT") = None.
Proof.
  apply (mask_str_identity_iff (str "ACACACGT") (str "AC") 7);
    [discriminate | reflexivity].
Defined.

(** X7.  With [min_motif >= 1] and [min_repeat >= 1], one step of the allele
    loop sets [str_modified] exactly when detection finds a motif: then the
    masked allele has the same length, holds an ['N'] and differs from the
    original; otherwise the allele is returned as it is. *)
Theorem mask_alt_modified_iff_detected (min_motif max_motif min_repeat : nat)
    (alt_seq : list ascii) :
  (1 ≤ min_motif)%nat → (1 ≤ min_repeat)%nat →
  let patterns :=
    Anonymizer.build_str_patterns min_motif max_motif min_repeat in
  match Anonymizer.detect patterns alt_seq with
  | Some _ =>
      ∃ out, Anonymizer.mask_alt patterns min_repeat alt_seq = Ok (out, true)
             ∧ length out = length alt_seq
             ∧ "N"%char ∈ out
             ∧ out ≠ alt_seq
  | None => Anonymizer.mask_alt patterns min_repeat alt_seq = Ok (alt_seq, false)
  end.
Proof.
  intros Hmin Hn patterns.
  destruct (Anonymizer.detect patterns alt_seq) as [u|] eqn:Hdet.
  - by apply (mask_alt_detected min_motif max_motif min_repeat alt_seq u).
  - unfold Anonymizer.mask_alt. by rewrite Hdet.
Qed.

Lemma mask_alt_modified_iff_detected_witness :
  ∃ out, Anonymizer.mask_alt (Anonymizer.build_str_patterns 1 6 7) 7
           (str "GAAAAAAAAT") = Ok (out, true)
         ∧ length out = length (str "GAAAAAAAAT")
         ∧ "N"%char ∈ out
         ∧ out ≠ str "GAAAAAAAAT".
Proof.
  apply (mask_alt_modified_iff_detected 1 6 7 (str "GAAAAAAAAT")); lia.
Defined.

Section RecordMore.
Context `{FloatOfStr}.

Lemma mask_alt_length patterns n alt out b :
  Anonymizer.mask_alt patterns n alt = Ok (out, b) → length out = length alt.
Proof.
  unfold Anonymizer.mask_alt.
  destruct (Anonymizer.detect patterns alt) as [u|]; [|by intros [= <- _]].
  destruct (Anonymizer.mask_str alt u n) as [masked|] eqn:Hm; [|done].
  intros [= <- _]. by eapply mask_str_length.
Qed.

Lemma mask_alts_lengths patterns n alts new b :
  Anonymizer.mask_alts patterns n alts = Ok (new, b) →
  Forall2 (λ a a', length a = length a') alts new.
Proof.
  revert new b. induction alts as [|alt alts IH]; intros new b; simpl.
  { intros [= <- _]. constructor. }
  destruct (Anonymizer.mask_alt patterns n alt) as [[masked b1]|] eqn:Ha;
    [|done].
  cbn [mbind result_bind].
  destruct (Anonymizer.mask_alts patterns n alts) as [[new' b2]|]; [|done].
  cbn [mbind result_bind]. intros [= <- _].
  constructor; [symmetry; by eapply mask_alt_length|by eapply IH].
Qed.

Lemma mask_alts_ok min_motif max_motif n alts :
  (1 ≤ min_motif)%nat →
  ∃ new b,
    Anonymizer.mask_alts
      (Anonymizer.build_str_patterns min_motif max_motif n) n alts
    = Ok (new, b).
Proof.
  intros Hmin. induction alts as [|alt alts (new & b & IH)]; simpl; [by eauto|].
  unfold Anonymizer.mask_alt.
  destruct (Anonymizer.detect _ alt) as [u|] eqn:Hdet.
  - apply detect_motif in Hdet as (Hlen & _).
    destruct (mask_str_ok u alt n) as (out & -> & _).
    { destruct u; [simpl in Hlen; lia|done]. }
    cbn [mbind result_bind]. rewrite IH. cbn [mbind result_bind]. eauto.
  - cbn [mbind result_bind]. rewrite IH. cbn [mbind result_bind]. eauto.
Qed.

Lemma mask_record_frame patterns n rec rec1 b :
  Anonymizer.mask_record patterns n rec = Ok (rec1, b) →
  chrom rec1 = chrom rec ∧ pos rec1 = pos rec ∧ info rec1 = info rec
  ∧ Forall2 (λ a a', length a = length a')
      (default [] (alts rec)) (default [] (alts rec1)).
Proof.
  unfold Anonymizer.mask_record. destruct (truthy (alts rec)).
  - destruct (Anonymizer.mask_alts patterns n (default [] (alts rec)))
      as [[new b']|] eqn:Hm; [|done].
    cbn [mbind result_bind]. intros [= <- _]. repeat split; try done.
    by eapply mask_alts_lengths.
  - intros [= <- _]. repeat split; try done. by apply Forall_Forall2_diag, Forall_true.
Qed.
End RecordMore.

(** X9.  Whatever [anonymize_record] returns keeps the chromosome, the
    position and the annotations of its input; at level low the record is
    returned as it is; at level high the alternates either become [(".",)]
    or keep their number and the length of every allele. *)
Theorem anonymize_record_frame `{FloatOfStr} (level : level) (thr : Q)
    (min_motif max_motif min_repeat : nat) (rec rec' : record) :
  Anonymizer.anonymize_record level thr min_motif max_motif min_repeat rec
  = Ok rec' →
  chrom rec' = chrom rec ∧ pos rec' = pos rec ∧ info rec' = info rec
  ∧ (level = Low → rec' = rec)
  ∧ (alts rec' = Some [str "."]
     ∨ Forall2 (λ a a', length a = length a')
         (default [] (alts rec)) (default [] (alts rec'))).
Proof.
  unfold Anonymizer.anonymize_record.
  assert (Hsame : Forall2 (λ a a' : list ascii, length a = length a')
                    (default [] (alts rec)) (default [] (alts rec))).
  { by apply Forall_Forall2_diag, Forall_true. }
  destruct (truthy (alts rec) && _).
  { intros [= <-]. repeat split; try done. by right. }
  destruct level.
  { intros [= <-]. repeat split; try done. by right. }
  destruct (Anonymizer.mask_record _ min_repeat rec) as [[rec1 b]|] eqn:Hm;
    [|done].
  apply mask_record_frame in Hm as (Hc & Hp & Hi & Hl).
  cbn [mbind result_bind]. destruct b.
  { intros [= <-]. repeat split; try done. by right. }
  destruct (Anonymizer.site_maf_from_info (info rec1)) as [[maf|]|]; [| |done];
    cbn [mbind result_bind].
  - destruct (Qltb maf thr); intros [= <-]; repeat split; try done;
      [by left|by right].
  - intros [= <-]. repeat split; try done. by right.
Qed.

Lemma anonymize_record_frame_witness :
  let rec :=
    Record "chr2" 7 (Some [str "GAAAAAAAAT"; str "C"])
      {[ "MAF" := VScalar (SFloat 0.001) ]} in
  let rec' :=
    Record "chr2" 7 (Some [str "GNNNNNNNNT"; str "C"])
      {[ "MAF" := VScalar (SFloat 0.001) ]} in
  chrom rec' = chrom rec ∧ pos rec' = pos rec ∧ info rec' = info rec
  ∧ (High = Low → rec' = rec)
  ∧ (alts rec' = Some [str "."]
     ∨ Forall2 (λ a a', length a = length a')
         (default [] (alts rec)) (default [] (alts rec'))).
Proof.
  intros rec rec'.
  apply (@anonymize_record_frame plain_decimal High 0.01 1 6 7 rec rec').
  vm_compute. reflexivity.
Defined.

Lemma mask_alts_zero_motif (n : nat) (patterns : list Re.pattern)
    (alt : list ascii) (alts : list (list ascii)) :
  Anonymizer.mask_alts (Re.Pattern 0 (S n) :: patterns) (S n) (alt :: alts)
  = Raise ValueError.
Proof.
  cbn [Anonymizer.mask_alts]. unfold Anonymizer.mask_alt.
  cbn [Anonymizer.detect].
  assert (Re.search (Re.Pattern 0 (S n)) alt = Some []) as ->; [|done].
  apply search_here. unfold Re.match_here. simpl. by rewrite take_0.
Qed.

(** X8.  With [min_motif = 0] and [min_repeat >= 1], level high raises
    [ValueError] on every record that has an alternate other than ["."]:
    the pattern for motif length 0 matches the empty string and [mask_str]
    then steps through the match by 0. *)
Theorem zero_min_motif_raises `{FloatOfStr} (thr : Q)
    (max_motif min_repeat : nat) (rec : record) :
  (1 ≤ min_repeat)%nat →
  truthy (alts rec) = true →
  forallb is_dot (default [] (alts rec)) = false →
  Anonymizer.anonymize_record High thr 0 max_motif min_repeat rec
  = Raise ValueError.
Proof.
  intros Hn Htruthy Hdots. unfold Anonymizer.anonymize_record.
  rewrite Htruthy, Hdots. simpl andb. cbv iota.
  unfold Anonymizer.mask_record. rewrite Htruthy.
  destruct (alts rec) as [[|alt alts]|]; [done| |done].
  destruct min_repeat as [|n]; [lia|].
  unfold Anonymizer.build_str_patterns.
  replace (max_motif + 1 - 0)%nat with (S max_motif) by lia.
  cbn [default seq fmap list_fmap].
  change (id (alt :: alts)) with (alt :: alts).
  by rewrite mask_alts_zero_motif.
Qed.

Lemma zero_min_motif_raises_witness :
  @Anonymizer.anonymize_record plain_decimal High 0.01 0 6 7
    (Record "chr1" 5 (Some [str "G"]) ∅)
  = Raise ValueError.
Proof.
  apply (@zero_min_motif_raises plain_decimal); [lia | reflexivity | reflexivity].
Defined.

Lemma record_raise_from_estimator `{FloatOfStr} (level : level)
    (thr : Q) (min_motif max_motif min_repeat : nat) (rec : record) (e : exn) :
  (1 ≤ min_motif)%nat →
  Anonymizer.anonymize_record level thr min_motif max_motif min_repeat rec
  = Raise e →
  level = High ∧ Anonymizer.site_maf_from_info (info rec) = Raise e.
Proof.
  intros Hmin. unfold Anonymizer.anonymize_record.
  destruct (truthy (alts rec) && _); [done|].
  destruct level; [done|]. intros Hraise. split; [done|]. revert Hraise.
  destruct (Anonymizer.mask_record _ min_repeat rec) as [[rec1 b]|e'] eqn:Hm.
  - apply mask_record_frame in Hm as (_ & _ & Hi & _).
    cbn [mbind result_bind]. destruct b; [done|]. rewrite Hi.
    destruct (Anonymizer.site_maf_from_info (info rec)) as [[maf|]|];
      cbn [mbind result_bind]; [by destruct (Qltb maf thr)|done|by intros [= ->]].
  - unfold Anonymizer.mask_record in Hm. destruct (truthy (alts rec)); [|done].
    destruct (mask_alts_ok min_motif max_motif min_repeat
                (default [] (alts rec)) Hmin) as (new & b & Hok).
    by rewrite Hok in Hm.
Qed.

(** X10.  With [min_motif >= 1] the STR stage never raises: if
    [anonymize_record] raises, the level is high and the exception is the
    one the MAF estimator raises on the record's annotations. *)
Theorem anonymize_record_raises_like_estimator `{FloatOfStr} (level : level)
    (thr : Q) (min_motif max_motif min_repeat : nat) (rec : record) (e : exn) :
  (1 ≤ min_motif)%nat →
  Anonymizer.anonymize_record level thr min_motif max_motif min_repeat rec
  = Raise e →
  level = High ∧ Anonymizer.site_maf_from_info (info rec) = Raise e.
Proof. apply record_raise_from_estimator. Qed.

Lemma anonymize_record_raises_like_estimator_witness :
  High = High
  ∧ @Anonymizer.site_maf_from_info plain_decimal
      {[ "AF" := VSeq [SStr "abc"] ]} = Raise TypeError.
Proof.
  exact (@anonymize_record_raises_like_estimator plain_decimal High 0.01 1 6 7
           (Record "chr1" 5 (Some [str "G"]) {[ "AF" := VSeq [SStr "abc"] ]})
           TypeError ltac:(lia) ltac:(vm_compute; reflexivity)).
Defined.

(* ===================================================================== *)
(** * More on the collector and the verification pass                    *)
(* ===================================================================== *)

Section SuccessSites.
Context `{FloatOfStr}.
Variable thr : Q.
Variable targets : gmap (string * Z) Verifier.target.

(** A site is in [var_m_sites] after the pass exactly when some record of
    the stream at that site is judged a success against the site's target. *)
Lemma verify_loop_success (recs : list record) (k : string * Z) :
  k ∈ Verifier.var_m_sites
        (Verifier.verify_loop thr targets (Verifier.VState ∅ ∅) recs)
  ↔ ∃ rec t, rec ∈ recs ∧ (chrom rec, pos rec) = k
             ∧ targets !! k = Some t ∧ Verifier.judge thr t rec = true.
Proof.
  induction recs as [|r recs IH] using rev_ind.
  { simpl. split; [by intros ?%elem_of_empty|].
    by intros (rec & t & ?%elem_of_nil & _). }
  unfold Verifier.verify_loop in *. rewrite fold_left_app. simpl.
  set (st := fold_left (Verifier.verify_step thr targets) recs
               (Verifier.VState ∅ ∅)) in *.
  assert (Hsplit : (∃ rec t, rec ∈ recs ++ [r] ∧ (chrom rec, pos rec) = k
                      ∧ targets !! k = Some t ∧ Verifier.judge thr t rec = true)
                   ↔ k ∈ Verifier.var_m_sites st
                     ∨ ((chrom r, pos r) = k
                        ∧ ∃ t, targets !! k = Some t
                               ∧ Verifier.judge thr t r = true)).
  { rewrite IH. split.
    - intros (rec & t & [Hin|Hin]%elem_of_app & Hk & Ht & Hj).
      + left. eauto 6.
      + apply list_elem_of_singleton in Hin as ->. right. eauto.
    - intros [(rec & t & Hin & Hrest)|(Hk & t & Ht & Hj)].
      + exists rec, t. split; [apply elem_of_app; by left|done].
      + exists r, t. split; [|done].
        apply elem_of_app. right. by apply list_elem_of_singleton. }
  rewrite Hsplit. unfold Verifier.verify_step.
  destruct (targets !! (chrom r, pos r)) as [t|] eqn:Ht.
  2:{ split; [by left|]. intros [?|(<- & t & Ht' & _)]; [done|congruence]. }
  case_bool_decide as Hin.
  { split; [by left|]. by intros [?|(<- & _)]. }
  destruct (Verifier.judge thr t r) eqn:Hj; simpl.
  - rewrite elem_of_union, elem_of_singleton. split.
    + intros [->|?]; [right; eauto|by left].
    + intros [?|(<- & _)]; [by right|by left].
  - split; [by left|]. intros [?|(<- & t' & Ht' & Hj')]; [done|congruence].
Qed.
End SuccessSites.

Lemma vstate_eq (st1 st2 : Verifier.vstate) :
  (∀ k, k ∈ Verifier.var_m_sites st1 ↔ k ∈ Verifier.var_m_sites st2) →
  (∀ k, k ∈ Verifier.error_sites st1 ↔ k ∈ Verifier.error_sites st2) →
  st1 = st2.
Proof.
  destruct st1 as [s1 e1], st2 as [s2 e2]. simpl. intros Hs He.
  f_equal; by apply set_eq.
Qed.

(** X11.  After the pass a site is in [success_sites] exactly when the
    stream holds a record at that site that is judged a success against
    the site's target, so one good record at a site reconciles it wherever
    it stands in the stream. *)
Theorem success_sites_characterised `{FloatOfStr} (thr : Q)
    (targets : gmap (string * Z) Verifier.target)
    (anony : list record) (k : string * Z) :
  k ∈ Verifier.var_m_sites
        (Verifier.verify_loop thr targets (Verifier.VState ∅ ∅) anony)
  ↔ ∃ rec t, rec ∈ anony ∧ (chrom rec, pos rec) = k
             ∧ targets !! k = Some t ∧ Verifier.judge thr t rec = true.
Proof. apply verify_loop_success. Qed.

(** X12.  The outcome of the verification pass does not depend on the
    order of the records: two streams that are permutations of each other
    give the same [success_sites] and the same [error_sites]. *)
Theorem verify_loop_order_irrelevant `{FloatOfStr} (thr : Q)
    (targets : gmap (string * Z) Verifier.target)
    (anony1 anony2 : list record) :
  anony1 ≡ₚ anony2 →
  Verifier.verify_loop thr targets (Verifier.VState ∅ ∅) anony1
  = Verifier.verify_loop thr targets (Verifier.VState ∅ ∅) anony2.
Proof.
  intros Hperm.
  assert (Hs : ∀ k,
    k ∈ Verifier.var_m_sites
          (Verifier.verify_loop thr targets (Verifier.VState ∅ ∅) anony1)
    ↔ k ∈ Verifier.var_m_sites
            (Verifier.verify_loop thr targets (Verifier.VState ∅ ∅) anony2)).
  { intros k. rewrite !verify_loop_success.
    split; intros (rec & t & Hin & Hrest); exists rec, t;
      (split; [|done]); first [by rewrite <- Hperm | by rewrite Hperm]. }
  apply vstate_eq; [done|]. intros k.
  destruct (verify_loop_sites thr targets anony1) as [_ ->].
  destruct (verify_loop_sites thr targets anony2) as [_ ->].
  rewrite Hs. split; intros (Hk & Ht & rec & Hin & Hrec);
    (split; [done|]); (split; [done|]); exists rec;
    (split; [|done]); first [by rewrite <- Hperm | by rewrite Hperm].
Qed.

Lemma verify_loop_order_irrelevant_witness :
  let r1 := Record "chr1" 100 (Some [str "."]) ∅ in
  let r2 := Record "chr1" 100 (Some [str "AC"]) ∅ in
  let targets : gmap (string * Z) Verifier.target :=
    {[ ("chr1", 100) := Verifier.Target Verifier.STR [str "AAAAAAAC"] ]} in
  @Verifier.verify_loop plain_decimal 0.01 targets (Verifier.VState ∅ ∅) [r1; r2]
  = @Verifier.verify_loop plain_decimal 0.01 targets (Verifier.VState ∅ ∅)
      [r2; r1].
Proof.
  intros r1 r2 targets.
  apply (@verify_loop_order_irrelevant plain_decimal 0.01 targets [r1; r2]
           [r2; r1]).
  apply Permutation_swap.
Defined.

Section Verdict.
Context `{FloatOfStr}.

Lemma success_sites_are_targets (thr : Q)
    (targets : gmap (string * Z) Verifier.target) (recs : list record) :
  Verifier.var_m_sites
    (Verifier.verify_loop thr targets (Verifier.VState ∅ ∅) recs)
  ⊆ dom targets.
Proof.
  intros k Hk. apply elem_of_dom.
  destruct (verify_loop_sites thr targets recs) as [Hs _]. by apply Hs.
Qed.

Lemma success_count_le (thr : Q)
    (targets : gmap (string * Z) Verifier.target) (recs : list record) :
  (size (Verifier.var_m_sites
           (Verifier.verify_loop thr targets (Verifier.VState ∅ ∅) recs))
   ≤ size targets)%nat.
Proof.
  rewrite <- (size_dom targets).
  apply subseteq_size, success_sites_are_targets.
Qed.
End Verdict.

Lemma ok_iff_equal (a b : nat) :
  (if (a =? b)%nat then "ok" else "fail") = "ok" ↔ a = b.
Proof.
  destruct (a =? b)%nat eqn:Heq.
  - apply Nat.eqb_eq in Heq. by split.
  - apply Nat.eqb_neq in Heq. split; [discriminate|done].
Qed.

(** X13.  In every report the masked counts never exceed the target counts,
    the total is their sum, the verdict is ["ok"] exactly when every
    metadata item and every target site is counted as masked, and a low-level
    file has no variant targets at all. *)
Theorem report_counts `{FloatOfStr} (fname : string)
    (origin anony : list record) (anony_lines : list string) (thr : Q)
    (origin_header : list string) (patterns : list Re.pattern) :
  let r :=
    Verifier.verify_pair fname origin anony anony_lines thr origin_header
      patterns in
  (Verifier.metadata_masked r ≤ Verifier.metadata_targets r)%nat
  ∧ (Verifier.variant_masked r ≤ Verifier.variant_targets r)%nat
  ∧ Verifier.total_targets r
    = (Verifier.metadata_targets r + Verifier.variant_targets r)%nat
  ∧ (Verifier.verification_result r = "ok"
     ↔ Verifier.metadata_masked r = Verifier.metadata_targets r
       ∧ Verifier.variant_masked r = Verifier.variant_targets r)
  ∧ (Verifier.anonymization_level r = Low
     → Verifier.variant_targets r = 0%nat ∧ Verifier.variant_masked r = 0%nat).
Proof.
  intros r. subst r. unfold Verifier.verify_pair. cbv beta zeta.
  cbn [Verifier.metadata_masked Verifier.metadata_targets
       Verifier.variant_masked Verifier.variant_targets
       Verifier.total_targets Verifier.verification_result
       Verifier.anonymization_level].
  set (meta_m := (Nat.b2n (_ && _) + Nat.b2n (_ && _))%nat).
  set (meta_t := (Nat.b2n _ + Nat.b2n _)%nat).
  assert (Hmeta : (meta_m ≤ meta_t)%nat) by apply masked_metadata_le.
  clearbody meta_t meta_m.
  rewrite ok_iff_equal.
  destruct (Verifier.infer_level fname).
  - cbn [Verifier.var_m_sites].
    assert (size (∅ : gmap (string * Z) Verifier.target) = 0%nat) as ->
      by apply map_size_empty.
    assert (size (∅ : gset (string * Z)) = 0%nat) as -> by apply size_empty.
    repeat split; try done; lia.
  - pose proof (success_count_le thr
                  (Verifier.collect_targets origin thr patterns) anony) as Hvar.
    repeat split; try done; lia.
Qed.

Section Collector.
Context `{FloatOfStr}.
Variable thr : Q.
Variable patterns : list Re.pattern.

(** A step of the collector overwrites: it is the one-record map laid over
    the map built so far. *)
Lemma collect_step_union (targets : gmap (string * Z) Verifier.target)
    (rec : record) :
  Verifier.collect_step thr patterns targets rec
  = Verifier.collect_step thr patterns ∅ rec ∪ targets.
Proof.
  unfold Verifier.collect_step.
  destruct (negb (truthy (alts rec)) || _); [by rewrite (left_id_L ∅ (∪))|].
  destruct (negb _ && negb _); [by rewrite (left_id_L ∅ (∪))|].
  by rewrite insert_empty, insert_union_singleton_l.
Qed.

Lemma collect_targets_snoc (recs : list record) (rec : record) :
  Verifier.collect_targets (recs ++ [rec]) thr patterns
  = Verifier.collect_step thr patterns ∅ rec
    ∪ Verifier.collect_targets recs thr patterns.
Proof.
  unfold Verifier.collect_targets. rewrite fold_left_app. simpl.
  apply collect_step_union.
Qed.

Lemma collect_targets_lookup (recs : list record) (k : string * Z)
    (t : Verifier.target) :
  Verifier.collect_targets recs thr patterns !! k = Some t
  ↔ ∃ before rec after,
      recs = before ++ rec :: after
      ∧ Verifier.collect_step thr patterns ∅ rec !! k = Some t
      ∧ ∀ rec', rec' ∈ after →
                Verifier.collect_step thr patterns ∅ rec' !! k = None.
Proof.
  induction recs as [|r recs IH] using rev_ind.
  { split; [done|]. intros (before & rec & after & Heq & _).
    by destruct before. }
  rewrite collect_targets_snoc, lookup_union_Some_raw, IH. split.
  - intros [Hr|(Hr & before & rec & after & -> & Hrec & Hafter)].
    + exists recs, r, []. split; [done|]. split; [done|].
      by intros rec' ?%elem_of_nil.
    + exists before, rec, (after ++ [r]). split; [by rewrite <- app_assoc|].
      split; [done|]. intros rec' [?|Hr']%elem_of_app; [by apply Hafter|].
      by apply list_elem_of_singleton in Hr' as ->.
  - intros (before & rec & after & Heq & Hrec & Hafter).
    destruct after as [|x after _] using rev_ind.
    + apply app_inj_tail in Heq as [-> ->]. by left.
    + rewrite app_comm_cons, app_assoc in Heq.
      apply app_inj_tail in Heq as [-> ->]. right. split.
      * apply Hafter, elem_of_app. right. by apply list_elem_of_singleton.
      * exists before, rec, after. split; [done|]. split; [done|].
        intros rec' Hin. apply Hafter, elem_of_app. by left.
Qed.

(** What one record contributes. *)
Lemma collect_step_entry (rec : record) (k : string * Z)
    (t : Verifier.target) :
  Verifier.collect_step thr patterns ∅ rec !! k = Some t →
  k = (chrom rec, pos rec)
  ∧ alts rec = Some (Verifier.alt_orig t)
  ∧ forallb is_dot (Verifier.alt_orig t) = false
  ∧ Verifier.t_kind t
    = (if Verifier.is_str patterns (Verifier.alt_orig t)
       then Verifier.STR else Verifier.MAF)
  ∧ (Verifier.t_kind t = Verifier.MAF →
     ∃ m, Verifier.site_maf_from_info (info rec) = Some m ∧ (m < thr)%Q).
Proof.
  unfold Verifier.collect_step.
  destruct (alts rec) as [[|alt alts]|] eqn:Halts; simpl; [done| |done].
  destruct (is_dot alt && forallb is_dot alts) eqn:Hdots; [done|].
  match goal with
  | |- context [negb ?s && negb ?m] =>
      destruct s eqn:Hstr; destruct m eqn:Hmaf; simpl; try done
  end.
  - rewrite lookup_insert. case_decide as Hk; [|done]. intros [= <-].
    unfold alt_tuple. simpl. rewrite Hstr. repeat split; try done.
  - rewrite lookup_insert. case_decide as Hk; [|done]. intros [= <-].
    unfold alt_tuple. simpl. rewrite Hstr. repeat split; try done.
  - rewrite lookup_insert. case_decide as Hk; [|done]. intros [= <-].
    unfold alt_tuple. simpl. rewrite Hstr. repeat split; try done. intros _.
    destruct (Verifier.site_maf_from_info (info rec)) as [m|]; [|done].
    exists m. split; [done|].
    apply andb_true_iff in Hmaf as [[Hlt _]%andb_true_iff _].
    by apply Qltb_lt.
Qed.
End Collector.

(** X14.  The target index is last-write-wins: the entry of a site is what
    the last record at that site that qualifies (as STR or as MAF) would
    contribute on its own, and a site has an entry only if such a record
    exists. *)
Theorem collect_targets_last_wins `{FloatOfStr} (thr : Q)
    (patterns : list Re.pattern) (origin : list record)
    (k : string * Z) (t : Verifier.target) :
  Verifier.collect_targets origin thr patterns !! k = Some t
  ↔ ∃ before rec after,
      origin = before ++ rec :: after
      ∧ Verifier.collect_step thr patterns ∅ rec !! k = Some t
      ∧ ∀ rec', rec' ∈ after →
                Verifier.collect_step thr patterns ∅ rec' !! k = None.
Proof. apply collect_targets_lookup. Qed.

(** X15.  An entry contributed by a record is filed under the record's
    site, stores the record's alternates, which are not all ["."]; its kind
    is STR whenever some alternate matches a pattern (also when the record
    qualifies by MAF), and a MAF entry means the record's estimate is below
    the threshold. *)
Theorem collect_step_classifies `{FloatOfStr} (thr : Q)
    (patterns : list Re.pattern) (rec : record)
    (k : string * Z) (t : Verifier.target) :
  Verifier.collect_step thr patterns ∅ rec !! k = Some t →
  k = (chrom rec, pos rec)
  ∧ alts rec = Some (Verifier.alt_orig t)
  ∧ forallb is_dot (Verifier.alt_orig t) = false
  ∧ Verifier.t_kind t
    = (if Verifier.is_str patterns (Verifier.alt_orig t)
       then Verifier.STR else Verifier.MAF)
  ∧ (Verifier.t_kind t = Verifier.MAF →
     ∃ m, Verifier.site_maf_from_info (info rec) = Some m ∧ (m < thr)%Q).
Proof. apply collect_step_entry. Qed.

Lemma collect_step_classifies_witness :
  let rec :=
    Record "chr1" 100 (Some [str "AAAAAAAAC"])
      {[ "MAF" := VScalar (SFloat 0.001) ]} in
  let t := Verifier.Target Verifier.STR [str "AAAAAAAAC"] in
  let patterns := Verifier.build_str_patterns 1 6 7 in
  ("chr1", 100) = (chrom rec, pos rec)
  ∧ alts rec = Some (Verifier.alt_orig t)
  ∧ forallb is_dot (Verifier.alt_orig t) = false
  ∧ Verifier.t_kind t
    = (if Verifier.is_str patterns (Verifier.alt_orig t)
       then Verifier.STR else Verifier.MAF)
  ∧ (Verifier.t_kind t = Verifier.MAF →
     ∃ m, @Verifier.site_maf_from_info plain_decimal (info rec) = Some m
          ∧ (m < 0.01)%Q).
Proof.
  intros rec t patterns.
  exact (@collect_step_classifies plain_decimal 0.01 patterns rec
           ("chr1", 100) t ltac:(vm_compute; reflexivity)).
Defined.

(* ===================================================================== *)
(** * The anonymizer's output under the verifier                         *)
(* ===================================================================== *)

Section AcrossPrograms.
Local Open Scope nat_scope.

Lemma is_str_true patterns alts :
  Verifier.is_str patterns alts = true →
  ∃ a, a ∈ alts ∧ a ≠ str "." ∧ is_Some (Anonymizer.detect patterns a).
Proof.
  unfold Verifier.is_str. destruct patterns as [|p0 ps]; [done|].
  set (patterns := p0 :: ps). clearbody patterns.
  intros (a & Ha%list_elem_of_In & Hex)%existsb_exists. exists a.
  split; [done|]. unfold is_dot in Hex. case_bool_decide as Hdot; [done|].
  split; [done|].
  apply existsb_exists in Hex as (p & Hp & Hs%bool_decide_eq_true).
  clear Ha Hdot. induction patterns as [|q qs IH]; [done|]. simpl.
  destruct (Re.search q a) as [u|] eqn:Hq; [by eexists|].
  apply IH. destruct Hp as [->|Hp]; [|done]. rewrite Hq in Hs. by destruct Hs.
Qed.

Lemma is_str_false patterns alts a :
  Verifier.is_str patterns alts = false →
  a ∈ alts → a ≠ str "." → Anonymizer.detect patterns a = None.
Proof.
  unfold Verifier.is_str. destruct patterns as [|p0 ps]; [done|].
  set (patterns := p0 :: ps). clearbody patterns.
  intros Hfalse Ha Hdot.
  destruct (Anonymizer.detect patterns a) as [u|] eqn:Hdet; [|done].
  apply not_true_iff_false in Hfalse. destruct Hfalse.
  apply existsb_exists. exists a. split; [by apply list_elem_of_In|].
  unfold is_dot. rewrite bool_decide_eq_false_2 by done.
  apply existsb_exists. clear Ha Hdot.
  induction patterns as [|q qs IH]; [done|]. simpl in Hdet.
  destruct (Re.search q a) as [u'|] eqn:Hq.
  - exists q. split; [by left|]. apply bool_decide_eq_true. by rewrite Hq.
  - destruct (IH Hdet) as (p & Hp & Hs). exists p. split; [by right|done].
Qed.

Lemma match_here_take p t u :
  Re.match_here p t = Some u → u = take (Re.pat_k p) t.
Proof.
  unfold Re.match_here. destruct (_ && _); [|done].
  destruct (Re.pat_min_repeat p).
  - destruct (Re.starts_with _ _); [|done]. by intros [= <-].
  - destruct (take (Re.pat_k p) t) eqn:Hu; [by intros [= <-]|].
    destruct (_ <=? _); [|done]. by intros [= <-].
Qed.

Lemma detect_dot min_motif max_motif n :
  1 ≤ min_motif →
  Anonymizer.detect (Anonymizer.build_str_patterns min_motif max_motif n)
    (str ".") = None.
Proof.
  intros Hmin.
  destruct (Anonymizer.detect _ (str ".")) as [u|] eqn:Hdet; [|done].
  apply detect_motif in Hdet as (Hlen & Hacgt & i & Hi).
  apply match_here_take in Hi. simpl in Hi.
  destruct u as [|c u]; [simpl in Hlen; lia|].
  destruct i as [|i]; [|by destruct i].
  simpl in Hi. injection Hi as -> _. done.
Qed.

Lemma mask_alts_undetected patterns n alts :
  (∀ a, a ∈ alts → Anonymizer.detect patterns a = None) →
  Anonymizer.mask_alts patterns n alts = Ok (alts, false).
Proof.
  induction alts as [|a alts IH]; intros Hall; [done|].
  simpl. unfold Anonymizer.mask_alt. rewrite Hall by left.
  cbn [mbind result_bind]. rewrite IH; [done|].
  intros a' Ha'. apply Hall. by right.
Qed.

Lemma mask_alts_detected min_motif max_motif n alts a :
  1 ≤ min_motif → 1 ≤ n →
  a ∈ alts →
  is_Some (Anonymizer.detect
             (Anonymizer.build_str_patterns min_motif max_motif n) a) →
  ∃ new,
    Anonymizer.mask_alts
      (Anonymizer.build_str_patterns min_motif max_motif n) n alts
    = Ok (new, true)
    ∧ new ≠ alts
    ∧ ∃ a', a' ∈ new ∧ "N"%char ∈ a'.
Proof.
  intros Hmin Hn Ha [u Hdet].
  induction alts as [|x alts IH]; [by apply elem_of_nil in Ha|].
  destruct (mask_alts_ok min_motif max_motif n alts Hmin) as (new' & b' & Hrest).
  apply elem_of_cons in Ha as [<-|Ha].
  - destruct (mask_alt_detected min_motif max_motif n a u Hmin Hn Hdet)
      as (out & Hout & _ & HN & Hne).
    exists (out :: new'). simpl. rewrite Hout. cbn [mbind result_bind].
    rewrite Hrest. cbn [mbind result_bind]. split; [done|].
    split; [by intros [= ? _]|]. exists out. split; [left|done].
  - destruct (IH Ha) as (new & Hnew & Hne & a' & Ha' & HN).
    destruct (mask_alts_ok min_motif max_motif n [x] Hmin) as (x' & bx & Hx).
    simpl in Hx.
    destruct (Anonymizer.mask_alt _ n x) as [[masked b]|] eqn:Hmx; [|done].
    exists (masked :: new). simpl. rewrite Hmx. cbn [mbind result_bind].
    rewrite Hnew. cbn [mbind result_bind]. rewrite orb_true_r.
    split; [done|]. split; [by intros [= _ ?]|].
    exists a'. split; [by right|done].
Qed.
End AcrossPrograms.

Section RecordRoundTrip.
Context `{FloatOfStr}.
Local Open Scope nat_scope.

Lemma str_record_round_trip (thr_v thr_a : Q)
    (min_motif max_motif n : nat) (rec : record) (k : string * Z)
    (t : Verifier.target) :
  1 ≤ min_motif → 1 ≤ n →
  Verifier.collect_step thr_v
    (Verifier.build_str_patterns min_motif max_motif n) ∅ rec !! k = Some t →
  Verifier.t_kind t = Verifier.STR →
  ∃ rec', Anonymizer.anonymize_record High thr_a min_motif max_motif n rec
          = Ok rec'
          ∧ (chrom rec', pos rec') = k
          ∧ Verifier.judge thr_v t rec' = true.
Proof.
  intros Hmin Hn Hstep Hkind.
  destruct (collect_step_entry _ _ _ _ _ Hstep) as (-> & Halts & Hdots & Hk & _).
  rewrite Hkind in Hk.
  destruct (Verifier.is_str _ (Verifier.alt_orig t)) eqn:Hstr; [|done].
  apply is_str_true in Hstr as (a & Ha & _ & Hdet).
  destruct (mask_alts_detected min_motif max_motif n _ a Hmin Hn Ha Hdet)
    as (new & Hnew & Hne & a' & Ha' & HN).
  exists (set_alts rec (Some new)).
  assert (Htruthy : truthy (alts rec) = true).
  { rewrite Halts. destruct (Verifier.alt_orig t); [by apply elem_of_nil in Ha|done]. }
  split; [|split; [done|]].
  - unfold Anonymizer.anonymize_record, Anonymizer.mask_record.
    rewrite Htruthy, Halts. simpl default. rewrite Hdots. simpl andb. cbv iota.
    change (Anonymizer.build_str_patterns min_motif max_motif n)
      with (Anonymizer.build_str_patterns min_motif max_motif n).
    by rewrite Hnew.
  - unfold Verifier.judge. rewrite Hkind. simpl alts.
    assert (Hnew_tuple : alt_tuple (Some new) = new).
    { unfold alt_tuple. destruct new; [by apply elem_of_nil in Ha'|done]. }
    rewrite Hnew_tuple. apply andb_true_iff. split.
    + by apply bool_decide_eq_true.
    + apply existsb_exists. exists a'.
      split; [by apply list_elem_of_In|by apply bool_decide_eq_true].
Qed.

Lemma maf_record_round_trip (thr : Q) (min_motif max_motif n : nat)
    (rec : record) (k : string * Z) (t : Verifier.target) :
  1 ≤ min_motif →
  Verifier.collect_step thr
    (Verifier.build_str_patterns min_motif max_motif n) ∅ rec !! k = Some t →
  Verifier.t_kind t = Verifier.MAF →
  Anonymizer.site_maf_from_info (info rec)
  = Ok (Verifier.site_maf_from_info (info rec)) →
  Anonymizer.anonymize_record High thr min_motif max_motif n rec
  = Ok (set_alts rec (Some [str "."]))
  ∧ Verifier.judge thr t (set_alts rec (Some [str "."])) = true.
Proof.
  intros Hmin Hstep Hkind Hest.
  destruct (collect_step_entry _ _ _ _ _ Hstep)
    as (-> & Halts & Hdots & Hk & Hmaf).
  rewrite Hkind in Hk.
  destruct (Verifier.is_str _ (Verifier.alt_orig t)) eqn:Hstr; [done|].
  destruct (Hmaf Hkind) as (m & Hm & Hlt).
  assert (Htruthy : truthy (alts rec) = true).
  { rewrite Halts. by destruct (Verifier.alt_orig t). }
  assert (Hmask :
    Anonymizer.mask_alts (Anonymizer.build_str_patterns min_motif max_motif n)
      n (Verifier.alt_orig t) = Ok (Verifier.alt_orig t, false)).
  { apply mask_alts_undetected. intros a Ha.
    destruct (decide (a = str ".")) as [->|Hdot]; [by apply detect_dot|].
    by apply (is_str_false _ (Verifier.alt_orig t)). }
  split.
  - unfold Anonymizer.anonymize_record, Anonymizer.mask_record.
    rewrite Htruthy, Halts. simpl default. rewrite Hdots. simpl andb. cbv iota.
    rewrite Hmask. cbn [mbind result_bind info set_alts].
    rewrite Hest, Hm. cbn [mbind result_bind].
    by rewrite (proj2 (Qltb_lt m thr) Hlt).
  - unfold Verifier.judge. rewrite Hkind. cbn [info set_alts].
    rewrite Hm, (proj2 (Qltb_lt m thr) Hlt). reflexivity.
Qed.
End RecordRoundTrip.

(* ===================================================================== *)
(** * Headers, whole files and file names                                *)
(* ===================================================================== *)

Section Strings.
Implicit Types (s t p : string) (c : ascii).

Lemma sapp_cons c s t : String c s +:+ t = String c (s +:+ t).
Proof. reflexivity. Qed.

Lemma sapp_assoc s t p : (s +:+ t) +:+ p = s +:+ t +:+ p.
Proof. induction s as [|c s IH]; [done|]. by rewrite !sapp_cons, IH. Qed.

Lemma sapp_nil_r s : s +:+ "" = s.
Proof. induction s as [|c s IH]; [done|]. by rewrite sapp_cons, IH. Qed.

Lemma rev_app_spec s t : String.rev_app s t = String.rev s +:+ t.
Proof.
  unfold String.rev. revert t. induction s as [|c s IH]; intros t; [done|].
  simpl. rewrite IH, (IH (String c "")), sapp_assoc. done.
Qed.

Lemma rev_sapp s t : String.rev (s +:+ t) = String.rev t +:+ String.rev s.
Proof.
  induction s as [|c s IH]; [by rewrite sapp_nil_r|].
  rewrite sapp_cons. unfold String.rev at 1 3. simpl.
  rewrite !(rev_app_spec _ (String c "")).
  by rewrite IH, sapp_assoc.
Qed.

Lemma rev_involutive s : String.rev (String.rev s) = s.
Proof.
  induction s as [|c s IH]; [done|].
  unfold String.rev at 2. simpl. rewrite rev_app_spec, rev_sapp, IH. done.
Qed.

Lemma startswith_sapp p s : Verifier.startswith (p +:+ s) p = true.
Proof.
  unfold Verifier.startswith. induction p as [|c p IH]; [by destruct s|].
  rewrite sapp_cons. simpl. destruct (ascii_dec c c); [done|congruence].
Qed.

Lemma startswith_inv s p :
  Verifier.startswith s p = true → ∃ t, s = p +:+ t.
Proof.
  unfold Verifier.startswith. revert s.
  induction p as [|c p IH]; intros s; [by exists s|].
  destruct s as [|c' s]; [done|]. simpl.
  destruct (ascii_dec c c') as [->|]; [|done].
  intros [t ->]%IH. by exists t.
Qed.

Lemma no_slash_sapp s t :
  Verifier.no_slash (s +:+ t) = Verifier.no_slash s && Verifier.no_slash t.
Proof.
  induction s as [|c s IH]; [done|].
  rewrite sapp_cons. simpl. rewrite IH. by rewrite andb_assoc.
Qed.

Lemma no_slash_rev s : Verifier.no_slash (String.rev s) = Verifier.no_slash s.
Proof.
  induction s as [|c s IH]; [done|].
  unfold String.rev. simpl. rewrite rev_app_spec, no_slash_sapp, IH.
  simpl. rewrite andb_true_r. apply andb_comm.
Qed.

Lemma no_slash_lstrip s :
  Verifier.no_slash s = true → Verifier.no_slash (Verifier.lstrip s) = true.
Proof.
  induction s as [|c s IH]; [done|]. simpl.
  intros [Hc Hs]%andb_true_iff.
  destruct (Verifier.is_space c); [by apply IH|]. simpl. by rewrite Hc.
Qed.

Lemma no_slash_strip s :
  Verifier.no_slash s = true → Verifier.no_slash (Verifier.strip s) = true.
Proof.
  intros Hs. unfold Verifier.strip.
  rewrite no_slash_rev. apply no_slash_lstrip.
  rewrite no_slash_rev. by apply no_slash_lstrip.
Qed.

Lemma lstrip_sapp s t :
  Verifier.lstrip (s +:+ t)
  = if bool_decide (Verifier.lstrip s = "") then Verifier.lstrip t
    else Verifier.lstrip s +:+ t.
Proof.
  induction s as [|c s IH]; [done|]. rewrite sapp_cons. simpl.
  destruct (Verifier.is_space c); [done|]. by rewrite bool_decide_eq_false_2.
Qed.

(** Stripping keeps a prefix that neither starts nor ends with white
    space. *)
Lemma strip_prefixed p s :
  Verifier.lstrip p = p → Verifier.lstrip (String.rev p) = String.rev p →
  p ≠ "" →
  ∃ r, Verifier.strip (p +:+ s) = p +:+ r
       ∧ (Verifier.no_slash s = true → Verifier.no_slash r = true).
Proof.
  intros Hl Hr Hne. unfold Verifier.strip.
  assert (Verifier.lstrip (p +:+ s) = p +:+ s) as ->.
  { rewrite lstrip_sapp, Hl. by rewrite bool_decide_eq_false_2. }
  rewrite rev_sapp, lstrip_sapp, Hr.
  case_bool_decide as Hempty.
  - exists "". by rewrite rev_involutive, sapp_nil_r.
  - exists (String.rev (Verifier.lstrip (String.rev s))).
    rewrite rev_sapp, rev_involutive. split; [done|].
    intros Hs. rewrite no_slash_rev. apply no_slash_lstrip.
    by rewrite no_slash_rev.
Qed.

Lemma no_slash_basename s : Verifier.no_slash (Files.basename s) = true.
Proof.
  induction s as [|c s IH]; [done|].
  cbn [Files.basename]. by destruct (Verifier.no_slash (String c s)) eqn:Hs.
Qed.
End Strings.

Section Header.

Lemma map_result_ok {A B} (f : A → result B) (l : list A) :
  (∀ x, x ∈ l → ∃ y, f x = Ok y) → ∃ ys, Files.map_result f l = Ok ys.
Proof.
  induction l as [|x l IH]; intros Hl; [by eexists|].
  destruct (Hl x) as [y Hy]; [left|].
  destruct IH as [ys Hys]; [intros x' Hx'; apply Hl; by right|].
  exists (y :: ys). simpl. by rewrite Hy, Hys.
Qed.

Lemma map_result_Forall2 {A B} (f : A → result B) (l : list A) (ys : list B) :
  Files.map_result f l = Ok ys → Forall2 (λ x y, f x = Ok y) l ys.
Proof.
  revert ys. induction l as [|x l IH]; intros ys; simpl.
  { intros [= <-]. constructor. }
  destruct (f x) as [y|] eqn:Hy; [|done]. cbn [mbind result_bind].
  destruct (Files.map_result f l) as [ys'|]; [|done].
  cbn [mbind result_bind]. intros [= <-]. constructor; [done|by apply IH].
Qed.

(** What the header loop writes for one line. *)
Lemma header_line_cases (line : string) :
  ∃ out, Files.anonymize_header_line line = Ok out
         ∧ (if Verifier.startswith line "##cmdline=" then out = "##cmdline=."
            else if Verifier.startswith line "##reference=" then
              ∃ name, out = "##reference=" +:+ name
                      ∧ Verifier.no_slash name = true
            else out = line).
Proof.
  unfold Files.anonymize_header_line.
  destruct (Verifier.startswith line "##cmdline="); [by eexists|].
  destruct (Verifier.startswith line "##reference=") eqn:Href; [|by eexists].
  apply startswith_inv in Href as [value ->].
  eexists. split; [reflexivity|]. eexists. split; [reflexivity|].
  apply no_slash_basename.
Qed.

Lemma header_ok (header : list string) :
  ∃ lines, Files.map_result Files.anonymize_header_line header = Ok lines.
Proof.
  apply map_result_ok. intros line _.
  destruct (header_line_cases line) as (out & Hout & _). eauto.
Qed.

Lemma cmdline_not_reference (line : string) :
  Verifier.startswith line "##cmdline=" = true →
  Verifier.startswith line "##reference=" = false.
Proof. intros [t ->]%startswith_inv. reflexivity. Qed.

Lemma reference_not_cmdline (line : string) :
  Verifier.startswith line "##reference=" = true →
  Verifier.startswith line "##cmdline=" = false.
Proof. intros [t ->]%startswith_inv. reflexivity. Qed.

Lemma strip_reference (name : string) :
  Verifier.no_slash name = true →
  Verifier.startswith (Verifier.strip ("##reference=" +:+ name)) "##reference="
  = true
  ∧ Verifier.no_slash (Verifier.strip ("##reference=" +:+ name)) = true.
Proof.
  intros Hname.
  destruct (strip_prefixed "##reference=" name) as (r & -> & Hr); [done..|].
  split; [apply startswith_sapp|].
  rewrite no_slash_sapp, Hr; done.
Qed.

(** The verifier's two header tests succeed on the stripped output of the
    header loop whenever the input has the corresponding line. *)
Lemma header_checks_pass (header lines : list string) :
  Files.map_result Files.anonymize_header_line header = Ok lines →
  let added := filter (λ l, Verifier.startswith l "#CHROM" = false) lines in
  (existsb (λ l, Verifier.startswith l "##cmdline=") header = true →
   existsb (λ l, bool_decide (Verifier.strip l = "##cmdline=."))
     (Verifier.parse_header added) = true)
  ∧ (existsb (λ l, Verifier.startswith l "##reference=") header = true →
     existsb (λ l, Verifier.startswith l "##reference=" && Verifier.no_slash l)
       (Verifier.parse_header added) = true).
Proof.
  intros Hlines%map_result_Forall2 added.
  assert (Hin : ∀ line, line ∈ header →
            ∃ out, out ∈ lines ∧ Files.anonymize_header_line line = Ok out).
  { intros line Hline. apply list_elem_of_lookup in Hline as [i Hi].
    destruct (Forall2_lookup_l _ _ _ _ _ Hlines Hi) as (out & Hout & Hf).
    exists out. split; [|done]. apply list_elem_of_lookup. eauto. }
  split.
  - intros (line & Hline%list_elem_of_In & Hc)%existsb_exists.
    destruct (Hin line Hline) as (out & Hout & Hf).
    destruct (header_line_cases line) as (out' & Hf' & Hcase).
    rewrite Hf in Hf'. injection Hf' as <-. rewrite Hc in Hcase. subst out.
    apply existsb_exists. exists (Verifier.strip "##cmdline=.").
    split; [|done]. apply list_elem_of_In, list_elem_of_fmap.
    exists "##cmdline=.". split; [done|].
    apply list_elem_of_filter. by split.
  - intros (line & Hline%list_elem_of_In & Hr)%existsb_exists.
    destruct (Hin line Hline) as (out & Hout & Hf).
    destruct (header_line_cases line) as (out' & Hf' & Hcase).
    rewrite Hf in Hf'. injection Hf' as <-.
    rewrite (reference_not_cmdline _ Hr), Hr in Hcase.
    destruct Hcase as (name & -> & Hname).
    destruct (strip_reference name Hname) as [Hs Hn].
    apply existsb_exists. exists (Verifier.strip ("##reference=" +:+ name)).
    split; [|by rewrite Hs, Hn]. apply list_elem_of_In, list_elem_of_fmap.
    exists ("##reference=" +:+ name). split; [done|].
    apply list_elem_of_filter. by split.
Qed.
End Header.

Section WholeFile.
Context `{FloatOfStr}.
Local Open Scope nat_scope.

Lemma parse_header_stripped (header : list string) :
  (∀ l, l ∈ header → Verifier.strip l = l) →
  Verifier.parse_header header = header.
Proof.
  intros Hl. unfold Verifier.parse_header.
  induction header as [|l header IH]; [done|].
  rewrite fmap_cons, Hl by left. f_equal. apply IH.
  intros l' Hl'. apply Hl. by right.
Qed.

Lemma low_records_unchanged (thr : Q) (min_motif max_motif n : nat)
    (records : list record) :
  Files.map_result (Anonymizer.anonymize_record Low thr min_motif max_motif n)
    records = Ok records.
Proof.
  induction records as [|rec records IH]; [done|]. simpl.
  assert (Anonymizer.anonymize_record Low thr min_motif max_motif n rec = Ok rec)
    as ->.
  { unfold Anonymizer.anonymize_record. by destruct (_ && _). }
  cbn [mbind result_bind]. by rewrite IH.
Qed.

End WholeFile.

Section Verdicts.
Context `{FloatOfStr}.

Lemma b2n_and_implied (c x : bool) : (c = true → x = true) → Nat.b2n (c && x) = Nat.b2n c.
Proof. destruct c, x; simpl; try done. intros Hc. by discriminate Hc. Qed.

Lemma verify_pair_ok (fname : string) (origin anony : list record)
    (anony_lines : list string) (thr : Q) (origin_header : list string)
    (patterns : list Re.pattern) :
  (existsb (λ l, Verifier.startswith l "##cmdline=") origin_header = true →
   existsb (λ l, bool_decide (Verifier.strip l = "##cmdline=."))
     (Verifier.parse_header anony_lines) = true) →
  (existsb (λ l, Verifier.startswith l "##reference=") origin_header = true →
   existsb (λ l, Verifier.startswith l "##reference=" && Verifier.no_slash l)
     (Verifier.parse_header anony_lines) = true) →
  (Verifier.infer_level fname = High →
   let targets := Verifier.collect_targets origin thr patterns in
   let st := Verifier.verify_loop thr targets (Verifier.VState ∅ ∅) anony in
   Verifier.var_m_sites st = dom targets ∧ Verifier.error_sites st = ∅) →
  let r :=
    Verifier.verify_pair fname origin anony anony_lines thr origin_header
      patterns in
  Verifier.verification_result r = "ok"
  ∧ Verifier.unmasked_positions r = "-"
  ∧ Verifier.metadata_masked r = Verifier.metadata_targets r
  ∧ Verifier.variant_masked r = Verifier.variant_targets r.
Proof.
  intros Hc Hr Hvar r. subst r. unfold Verifier.verify_pair. cbv beta zeta.
  cbn [Verifier.verification_result Verifier.unmasked_positions
       Verifier.metadata_masked Verifier.metadata_targets
       Verifier.variant_masked Verifier.variant_targets].
  rewrite (b2n_and_implied _ _ Hc), (b2n_and_implied _ _ Hr).
  set (meta_t := (Nat.b2n _ + Nat.b2n _)%nat). clearbody meta_t.
  destruct (Verifier.infer_level fname).
  - cbn [Verifier.var_m_sites Verifier.error_sites].
    assert (size (∅ : gmap (string * Z) Verifier.target) = 0%nat) as ->
      by apply map_size_empty.
    assert (size (∅ : gset (string * Z)) = 0%nat) as -> by apply size_empty.
    rewrite Nat.eqb_refl. repeat split; reflexivity.
  - destruct (Hvar eq_refl) as [-> ->]. rewrite size_dom, Nat.eqb_refl.
    repeat split; reflexivity.
Qed.
End Verdicts.

(** X16.  A record that the collector files as an STR target is accepted
    after anonymization: with [min_motif >= 1] and [min_repeat >= 1] the
    anonymizer at level high returns a record at the same site that the
    verifier judges a success against that target, whatever the two MAF
    thresholds are. *)
Theorem str_target_record_verifies `{FloatOfStr} (thr_v thr_a : Q)
    (min_motif max_motif min_repeat : nat) (rec : record) (k : string * Z)
    (t : Verifier.target) :
  (1 ≤ min_motif)%nat → (1 ≤ min_repeat)%nat →
  Verifier.collect_step thr_v
    (Verifier.build_str_patterns min_motif max_motif min_repeat) ∅ rec !! k
  = Some t →
  Verifier.t_kind t = Verifier.STR →
  ∃ rec', Anonymizer.anonymize_record High thr_a min_motif max_motif
            min_repeat rec = Ok rec'
          ∧ (chrom rec', pos rec') = k
          ∧ Verifier.judge thr_v t rec' = true.
Proof. apply str_record_round_trip. Qed.

Lemma str_target_record_verifies_witness :
  let rec :=
    Record "chr1" 100 (Some [str "C"; str "GAAAAAAAAT"])
      {[ "MAF" := VScalar (SFloat 0.3) ]} in
  let t := Verifier.Target Verifier.STR [str "C"; str "GAAAAAAAAT"] in
  ∃ rec', @Anonymizer.anonymize_record plain_decimal High 0.05 1 6 7 rec
          = Ok rec'
          ∧ (chrom rec', pos rec') = ("chr1", 100)
          ∧ @Verifier.judge plain_decimal 0.01 t rec' = true.
Proof.
  intros rec t.
  exact (@str_target_record_verifies plain_decimal 0.01 0.05 1 6 7 rec
           ("chr1", 100) t ltac:(lia) ltac:(lia)
           ltac:(vm_compute; reflexivity) eq_refl).
Defined.

(** X17.  A record that the collector files as a MAF target, and on whose
    annotations the anonymizer's estimator returns what the verifier's
    returns, is suppressed by the anonymizer at level high with the same
    threshold (its alternates become [(".",)]), and the verifier judges the
    suppressed record a success against that target. *)
Theorem maf_target_record_verifies `{FloatOfStr} (thr : Q)
    (min_motif max_motif min_repeat : nat) (rec : record) (k : string * Z)
    (t : Verifier.target) :
  (1 ≤ min_motif)%nat →
  Verifier.collect_step thr
    (Verifier.build_str_patterns min_motif max_motif min_repeat) ∅ rec !! k
  = Some t →
  Verifier.t_kind t = Verifier.MAF →
  Anonymizer.site_maf_from_info (info rec)
  = Ok (Verifier.site_maf_from_info (info rec)) →
  Anonymizer.anonymize_record High thr min_motif max_motif min_repeat rec
  = Ok (set_alts rec (Some [str "."]))
  ∧ Verifier.judge thr t (set_alts rec (Some [str "."])) = true.
Proof. apply maf_record_round_trip. Qed.

Lemma maf_target_record_verifies_witness :
  let rec :=
    Record "chr1" 100 (Some [str "AC"]) {[ "AF" := VSeq [SFloat 0.004] ]} in
  let t := Verifier.Target Verifier.MAF [str "AC"] in
  @Anonymizer.anonymize_record plain_decimal High 0.01 1 6 7 rec
  = Ok (set_alts rec (Some [str "."]))
  ∧ @Verifier.judge plain_decimal 0.01 t (set_alts rec (Some [str "."])) = true.
Proof.
  intros rec t.
  exact (@maf_target_record_verifies plain_decimal 0.01 1 6 7 rec
           ("chr1", 100) t ltac:(lia) ltac:(vm_compute; reflexivity) eq_refl
           ltac:(vm_compute; reflexivity)).
Defined.

(** X18.  The header loop of the anonymizer never raises and keeps the
    number and order of the lines: a [##cmdline=] line becomes
    [##cmdline=.], a [##reference=] line becomes [##reference=] followed by
    a name without ["/"], and every other line is kept as it is. *)
Theorem header_lines_rewritten (header : list string) :
  ∃ lines,
    Files.map_result Files.anonymize_header_line header = Ok lines
    ∧ Forall2
        (λ line out,
           if Verifier.startswith line "##cmdline=" then out = "##cmdline=."
           else if Verifier.startswith line "##reference=" then
             ∃ name, out = "##reference=" +:+ name
                     ∧ Verifier.no_slash name = true
           else out = line)
        header lines.
Proof.
  destruct (header_ok header) as [lines Hlines]. exists lines.
  split; [done|]. apply map_result_Forall2 in Hlines.
  eapply Forall2_impl; [exact Hlines|]. intros line out Hout. simpl in Hout.
  destruct (header_line_cases line) as (out' & Hout' & Hcase).
  rewrite Hout in Hout'. by injection Hout' as <-.
Qed.

Section FileTheorems.
Context `{FloatOfStr} `{Files.Output}.

Lemma map_result_ext {A B} (f g : A → result B) (l : list A) :
  (∀ x, x ∈ l → f x = g x) → Files.map_result f l = Files.map_result g l.
Proof.
  induction l as [|x l IH]; intros Hl; [done|]. simpl.
  rewrite Hl by left. rewrite IH; [done|].
  intros x' Hx'. apply Hl. by right.
Qed.

(** The new header holds the lines of the header loop, but for [#CHROM]. *)
Lemma add_lines_spec (so_far lines out : list string) :
  Files.add_lines so_far lines = Ok out →
  out = so_far
        ++ filter (λ l, Verifier.startswith l "#CHROM" = false) lines.
Proof.
  revert so_far. induction lines as [|l lines IH]; intros so_far; simpl.
  { intros [= <-]. by rewrite app_nil_r. }
  rewrite filter_cons.
  destruct (Verifier.startswith l "#CHROM") eqn:Hl.
  - rewrite decide_False by done. apply IH.
  - rewrite decide_True by done.
    destruct (Files.add_line so_far l); [|done]. cbn [mbind result_bind].
    intros ->%IH. by rewrite <- app_assoc.
Qed.

Lemma new_header_spec (header lines : list string) :
  Files.new_header header = Ok lines →
  ∃ header_lines,
    Files.map_result Files.anonymize_header_line header = Ok header_lines
    ∧ lines
      = filter (λ l, Verifier.startswith l "#CHROM" = false) header_lines.
Proof.
  unfold Files.new_header.
  destruct (Files.map_result Files.anonymize_header_line header)
    as [header_lines|]; [|done].
  cbn [mbind result_bind]. intros ->%add_lines_spec. by exists header_lines.
Qed.

(** When pysam takes the header and every transformed record, the run
    returns the new header and the transformed records. *)
Lemma file_result (header lines : list string) (origin written : list record)
    (level : level) (thr : Q) (min_motif max_motif n : nat) :
  Files.new_header header = Ok lines →
  Files.map_result
    (Anonymizer.anonymize_record level thr min_motif max_motif n) origin
  = Ok written →
  (∀ rec rec', rec ∈ origin →
     Anonymizer.anonymize_record level thr min_motif max_motif n rec = Ok rec' →
     Files.write header lines rec' = Ok ()) →
  Files.anonymize_vcf_file header origin level thr min_motif max_motif n
  = Ok (lines, written).
Proof.
  intros Hnew Hw Hwrite. unfold Files.anonymize_vcf_file.
  rewrite Hnew. cbn [mbind result_bind].
  rewrite (map_result_ext _
             (Anonymizer.anonymize_record level thr min_motif max_motif n)).
  { by rewrite Hw. }
  intros rec Hrec.
  destruct (Anonymizer.anonymize_record level thr min_motif max_motif n rec)
    as [rec'|e] eqn:Hr; [|done].
  cbn [mbind result_bind]. by rewrite (Hwrite rec rec').
Qed.

(** A record that pysam refuses ends the run with pysam's exception. *)
Lemma refused_record_ends_run (header lines : list string)
    (before after : list record) (rec rec' : record) (e : exn)
    (level : level) (thr : Q) (min_motif max_motif n : nat) :
  Files.new_header header = Ok lines →
  (∀ r, r ∈ before →
     ∃ r', Anonymizer.anonymize_record level thr min_motif max_motif n r
           = Ok r'
           ∧ Files.write header lines r' = Ok ()) →
  Anonymizer.anonymize_record level thr min_motif max_motif n rec = Ok rec' →
  Files.write header lines rec' = Raise e →
  Files.anonymize_vcf_file header (before ++ rec :: after) level thr
    min_motif max_motif n
  = Raise e.
Proof.
  intros Hnew Hbefore Hrec Hwrite. unfold Files.anonymize_vcf_file.
  rewrite Hnew. cbn [mbind result_bind].
  assert (Files.map_result
            (λ rec,
               rec ← Anonymizer.anonymize_record level thr min_motif
                       max_motif n rec;
               _ ← Files.write header lines rec; Ok rec)
            (before ++ rec :: after) = Raise e) as ->; [|done].
  induction before as [|r before IH]; simpl.
  - rewrite Hrec. cbn [mbind result_bind]. by rewrite Hwrite.
  - destruct (Hbefore r) as (r' & -> & Hw); [left|].
    cbn [mbind result_bind]. rewrite Hw. cbn [mbind result_bind].
    rewrite IH; [done|]. intros r0 Hr0. apply Hbefore. by right.
Qed.
End FileTheorems.

(** X22.  [anonymize_vcf_file] does not catch what pysam raises.  When the
    new header is accepted, the records before [rec] are transformed and
    written, [rec] is transformed, and [vcf_out.write] raises [e] on the
    result, the run ends with [e], whatever records follow. *)
Theorem refused_record_aborts `{FloatOfStr} `{Files.Output}
    (header lines : list string) (before after : list record)
    (rec rec' : record) (e : exn) (level : level) (thr : Q)
    (min_motif max_motif min_repeat : nat) :
  Files.new_header header = Ok lines →
  (∀ r, r ∈ before →
     ∃ r', Anonymizer.anonymize_record level thr min_motif max_motif
             min_repeat r = Ok r'
           ∧ Files.write header lines r' = Ok ()) →
  Anonymizer.anonymize_record level thr min_motif max_motif min_repeat rec
  = Ok rec' →
  Files.write header lines rec' = Raise e →
  Files.anonymize_vcf_file header (before ++ rec :: after) level thr
    min_motif max_motif min_repeat
  = Raise e.
Proof. apply refused_record_ends_run. Qed.

Lemma refused_record_aborts_witness :
  @Files.anonymize_vcf_file plain_decimal Files.plain_output
    ["##fileformat=VCFv4.2"]
    ([Record "chr1" 100 (Some [str "AC"]) ∅]
     ++ Record "chr1" 200 (Some [str "<DEL>"]) ∅
     :: [Record "chr1" 300 (Some [str "G"]) ∅])
    Low 0.01 1 6 7
  = Raise OSError.
Proof.
  apply (@refused_record_aborts plain_decimal Files.plain_output
           ["##fileformat=VCFv4.2"] ["##fileformat=VCFv4.2"]
           [Record "chr1" 100 (Some [str "AC"]) ∅]
           [Record "chr1" 300 (Some [str "G"]) ∅]
           (Record "chr1" 200 (Some [str "<DEL>"]) ∅)
           (Record "chr1" 200 (Some [str "<DEL>"]) ∅)).
  - vm_compute. reflexivity.
  - intros r ->%list_elem_of_singleton. eexists.
    split; vm_compute; reflexivity.
  - vm_compute. reflexivity.
  - vm_compute. reflexivity.
Defined.

(** X19.  A low-level run verifies.  When the header lines are free of
    surrounding white space and pysam takes the new header and every
    record, [anonymize_vcf_file] at level low returns the new header and the
    records unchanged, and [verify_pair] on the input and that output,
    under the name the anonymizer gives the file, reports level low,
    verdict ["ok"], every metadata item masked and no unmasked position. *)
Theorem low_level_file_verifies `{FloatOfStr} `{Files.Output}
    (header lines : list string) (origin : list record) (thr_a thr_v : Q)
    (min_motif max_motif n : nat) (maf_text fname : string)
    (patterns : list Re.pattern) :
  (∀ l, l ∈ header → Verifier.strip l = l) →
  Files.new_header header = Ok lines →
  (∀ rec, rec ∈ origin → Files.write header lines rec = Ok ()) →
  Files.anonymize_vcf_file header origin Low thr_a min_motif max_motif n
  = Ok (lines, origin)
  ∧ let r :=
      Verifier.verify_pair (Files.output_name Low maf_text fname) origin
        origin lines thr_v (Verifier.parse_header header) patterns in
    Verifier.anonymization_level r = Low
    ∧ Verifier.verification_result r = "ok"
    ∧ Verifier.metadata_masked r = Verifier.metadata_targets r
    ∧ Verifier.unmasked_positions r = "-".
Proof.
  intros Hstripped Hnew Hwrite.
  pose proof (low_records_unchanged thr_a min_motif max_motif n origin)
    as Hrecords.
  split.
  { apply file_result; [done..|]. intros rec rec' Hrec Hr.
    assert (rec' = rec) as ->; [|by apply Hwrite].
    unfold Anonymizer.anonymize_record in Hr.
    destruct (_ && _); by injection Hr. }
  intros r.
  destruct (new_header_spec header lines Hnew) as (header_lines & Hlines & ->).
  destruct (header_checks_pass header header_lines Hlines) as [Hc Hr].
  rewrite <- (parse_header_stripped header Hstripped) in Hc, Hr.
  destruct (verify_pair_ok (Files.output_name Low maf_text fname) origin
              origin _ thr_v _ patterns Hc Hr) as (Hok & Hun & Hmeta & _).
  { intros Hlevel. discriminate Hlevel. }
  done.
Qed.

Lemma low_level_file_verifies_witness :
  let header :=
    ["##fileformat=VCFv4.2"; "##reference=file:///data/hg38.fa";
     "##cmdline=caller --sample NA12878"; "#CHROM POS ID REF ALT"] in
  let lines :=
    ["##fileformat=VCFv4.2"; "##reference=hg38.fa"; "##cmdline=."] in
  let origin := [Record "chr1" 100 (Some [str "AC"]) ∅] in
  @Files.anonymize_vcf_file plain_decimal Files.plain_output header origin
    Low 0.01 1 6 7
  = Ok (lines, origin)
  ∧ let r :=
      @Verifier.verify_pair plain_decimal
        (Files.output_name Low "0.01" "s1.vcf.gz") origin origin lines 0.01
        (Verifier.parse_header header) (Verifier.build_str_patterns 1 6 7) in
    Verifier.anonymization_level r = Low
    ∧ Verifier.verification_result r = "ok"
    ∧ Verifier.metadata_masked r = Verifier.metadata_targets r
    ∧ Verifier.unmasked_positions r = "-".
Proof.
  intros header lines origin.
  apply (@low_level_file_verifies plain_decimal Files.plain_output).
  - intros l Hl.
    repeat (apply elem_of_cons in Hl as [->|Hl]; [vm_compute; reflexivity|]).
    by apply elem_of_nil in Hl.
  - vm_compute. reflexivity.
  - intros rec Hrec.
    repeat (apply elem_of_cons in Hrec as [->|Hrec]; [vm_compute; reflexivity|]).
    by apply elem_of_nil in Hrec.
Defined.



Section Names.
Implicit Types (s t p : string).

Lemma endswith_sapp p s suf :
  Files.endswith s suf = true → Files.endswith (p +:+ s) suf = true.
Proof.
  intros Hs. induction p as [|c p IH]; [done|].
  rewrite sapp_cons. simpl. rewrite IH. apply orb_true_r.
Qed.

Lemma is_vcf_name_sapp p s :
  Files.is_vcf_name s = true → Files.is_vcf_name (p +:+ s) = true.
Proof.
  unfold Files.is_vcf_name.
  intros [Hs|Hs]%orb_true_iff; apply orb_true_iff;
    [left|right]; by apply endswith_sapp.
Qed.

Lemma after_first_anony p s :
  Forall (λ c, c ≠ "a"%char) (String.list_ascii_of_string p) →
  Files.after_first "anony_" (p +:+ "anony_" +:+ s) = Some s.
Proof.
  induction p as [|c p IH]; intros Hp; [by destruct s|].
  simpl in Hp. apply Forall_cons in Hp as [Hc Hp].
  rewrite sapp_cons. cbn [Files.after_first String.prefix].
  destruct (ascii_dec "a" c) as [<-|_]; [done|]. by apply IH.
Qed.

Lemma after_anony_output (level : level) (maf_text fname : string) :
  Forall (λ c, c ≠ "a"%char) (String.list_ascii_of_string maf_text) →
  Files.after_anony (Files.output_name level maf_text fname) = fname.
Proof.
  intros Hm. unfold Files.after_anony, Files.output_name. destruct level.
  - change ("low_anony_" +:+ fname) with ("low_" +:+ "anony_" +:+ fname).
    rewrite after_first_anony; [done|]. by repeat constructor.
  - replace ("high_" +:+ maf_text +:+ "_anony_" +:+ fname)
      with (("high_" +:+ maf_text +:+ "_") +:+ "anony_" +:+ fname).
    2:{ rewrite !sapp_assoc. reflexivity. }
    rewrite after_first_anony; [done|].
    assert (Happ : ∀ s t, String.list_ascii_of_string (s +:+ t)
              = String.list_ascii_of_string s ++ String.list_ascii_of_string t).
    { intros s t. induction s as [|c s IH]; [done|].
      rewrite sapp_cons. simpl. by rewrite IH. }
    rewrite !Happ. apply Forall_app. split; [by repeat constructor|].
    apply Forall_app. split; [done|]. by repeat constructor.
Qed.

Lemma merge_sort_elem (l : list string) (x : string) :
  x ∈ merge_sort String.le l ↔ x ∈ l.
Proof. by rewrite merge_sort_Permutation. Qed.
End Names.

(** X21.  The verifier finds the anonymizer's output again: for an input
    file name ending in [.vcf.gz] or [.vcf.bgz] and a threshold text
    without the letter [a], the output name of the anonymizer passes the
    name filter of [run] for that input, is among the files [run] verifies
    when it is in the directory, and [infer_level] gives back the level the
    anonymizer ran at. *)
Theorem output_name_round_trip (level : level) (maf_text fname : string)
    (anony_dir : list string) :
  Files.is_vcf_name fname = true →
  Forall (λ c, c ≠ "a"%char) (String.list_ascii_of_string maf_text) →
  let out := Files.output_name level maf_text fname in
  Files.is_match fname out = true
  ∧ Verifier.infer_level out = level
  ∧ (out ∈ anony_dir → out ∈ Files.ordered fname anony_dir).
Proof.
  intros Hvcf Hm out.
  assert (Hmatch : Files.is_match fname out = true).
  { unfold Files.is_match. subst out.
    rewrite (after_anony_output level maf_text fname Hm), String.eqb_refl.
    rewrite andb_true_r. destruct level; simpl.
    - by apply (is_vcf_name_sapp "low_anony_").
    - rewrite <- !sapp_assoc. by apply is_vcf_name_sapp. }
  assert (Hlevel : Verifier.infer_level out = level).
  { subst out. destruct level; [reflexivity|].
    unfold Verifier.infer_level, Files.output_name.
    by rewrite startswith_sapp. }
  split; [done|]. split; [done|]. intros Hin. unfold Files.ordered.
  apply elem_of_app. destruct level.
  - left. apply merge_sort_elem, list_elem_of_filter. split; [reflexivity|].
    by apply list_elem_of_filter.
  - right. apply merge_sort_elem, list_elem_of_filter. split.
    + subst out. unfold Files.output_name. by rewrite startswith_sapp.
    + by apply list_elem_of_filter.
Qed.

Lemma output_name_round_trip_witness :
  let out := Files.output_name High "0.01" "sample_anony_1.vcf.gz" in
  Files.is_match "sample_anony_1.vcf.gz" out = true
  ∧ Verifier.infer_level out = High
  ∧ (out ∈ ["low_anony_sample_anony_1.vcf.gz"; out]
     → out ∈ Files.ordered "sample_anony_1.vcf.gz"
               ["low_anony_sample_anony_1.vcf.gz"; out]).
Proof.
  apply (output_name_round_trip High "0.01" "sample_anony_1.vcf.gz");
    [reflexivity | repeat constructor; discriminate].
Defined.
